(** * PayFlow (Smspay): SMS parsing, candidate scoring and match resolution

    A shallow embedding of the SMS pipeline of the server:
    - [server/routes.ts]: the handlers [POST /api/sms/webhook],
      [GET /api/sms/unidentified], [GET /api/sms/:id/candidates],
      [POST /api/sms/:id/manual-match], [POST /api/sms/:id/dismiss],
      [POST /api/payments/verify], the device routes, [GET
      /api/stats/dashboard] and the middleware [authenticateToken];
    - [server/storage.ts]: the [DatabaseStorage] methods those handlers call;
    - [shared/schema.ts]: the tables and columns they read and write.

    Strings are JavaScript strings (sequences of UTF-16 code units), the three
    regular expressions of the webhook are run by a small backtracking matcher,
    the database is a record of tables, and every storage call may be rejected
    by the persistence layer (a fault plan), which is how the handlers'
    [try]/[catch] blocks are exercised. *)

From Stdlib Require Import ZArith NArith QArith Qround List Bool Lia String Ascii.
From Stdlib Require Import Sorting.Sorted.
Import ListNotations.

Local Open Scope Z_scope.

(* ================================================================== *)
(** ** JavaScript values *)

Module Js.

(** A JavaScript string: its UTF-16 code units. *)
Definition js_string := list N.

(** The code units of an ASCII literal of the source. *)
Definition lit (s : string) : js_string :=
  List.map N_of_ascii (list_ascii_of_string s).

Definition cu (a : ascii) : N := N_of_ascii a.

Definition str_eqb (a b : js_string) : bool :=
  if list_eq_dec N.eq_dec a b then true else false.

(** [s.startsWith(p)], returning what follows the prefix. *)
Fixpoint strip_prefix (p s : js_string) : option js_string :=
  match p, s with
  | [], _ => Some s
  | a :: p', b :: s' => if N.eqb a b then strip_prefix p' s' else None
  | _ :: _, [] => None
  end.

(** [s.replace(pat, rep)] with a string pattern: only the first occurrence
    of [pat] is replaced. *)
Fixpoint replace_first (pat rep s : js_string) : js_string :=
  match strip_prefix pat s with
  | Some rest => rep ++ rest
  | None => match s with
            | [] => []
            | c :: t => c :: replace_first pat rep t
            end
  end.

(** [s.replace(/c/g, '')] for a one-character pattern [c]. *)
Definition remove_all (c : N) (s : js_string) : js_string :=
  List.filter (fun x => negb (N.eqb x c)) s.

(** The longest prefix of [s] whose code units satisfy [p], and the rest. *)
Fixpoint span (p : N -> bool) (s : js_string) : js_string * js_string :=
  match s with
  | c :: t => if p c then let (a, b) := span p t in (c :: a, b) else ([], s)
  | [] => ([], [])
  end.

(** A JavaScript number as far as the pipeline needs it: [NaN] or a
    rational.  The amounts are computed in exact arithmetic; IEEE doubles
    agree with it for every amount below 2^50 minor units, far above the
    range of the [integer] columns that store them. *)
Inductive jsnum : Type :=
| JNaN
| JNum (q : Q).

Definition jmul (a : jsnum) (k : Z) : jsnum :=
  match a with
  | JNaN => JNaN
  | JNum q => JNum (q * inject_Z k)
  end.

(** [Math.round]: the nearest integer, halves towards +infinity. *)
Definition Math_round (a : jsnum) : jsnum :=
  match a with
  | JNaN => JNaN
  | JNum q => JNum (inject_Z (Qfloor (q + (1 # 2))))
  end.

Definition is_digit (c : N) : bool := (48 <=? c)%N && (c <=? 57)%N.
Definition is_upper (c : N) : bool := (65 <=? c)%N && (c <=? 90)%N.
Definition is_lower (c : N) : bool := (97 <=? c)%N && (c <=? 122)%N.
Definition is_alpha (c : N) : bool := is_upper c || is_lower c.

Definition digit_val (c : N) : Z := Z.of_N c - 48.

Definition digits_val (ds : js_string) : Z :=
  fold_left (fun acc c => 10 * acc + digit_val c) ds 0.

(** [parseFloat] on the strings the webhook gives it, which hold digits and
    "." only (see [remove_commas] below): an integer part, then an optional
    "." and a fraction; [NaN] when both parts are empty.  The sign, exponent,
    [Infinity] and leading-blank cases of [parseFloat] need other
    characters. *)
Definition parseFloat (s : js_string) : jsnum :=
  let (ip, r) := span is_digit s in
  let fp := match r with
            | c :: t => if N.eqb c (cu ".") then fst (span is_digit t) else []
            | [] => []
            end in
  match ip, fp with
  | [], [] => JNaN
  | _, _ => JNum (inject_Z (digits_val ip)
                  + (digits_val fp # Z.to_pos (10 ^ Z.of_nat (List.length fp))))
  end.

(** Truthiness of [number | null]: [null], [NaN] and [0] are falsy. *)
Definition truthy_num (a : option jsnum) : bool :=
  match a with
  | None => false
  | Some JNaN => false
  | Some (JNum q) => negb (Qeq_bool q 0)
  end.

(** Truthiness of an [integer] column read back from the database. *)
Definition truthy_int (a : option Z) : bool :=
  match a with
  | None => false
  | Some z => negb (z =? 0)
  end.

(** [Array.prototype.sort(cmp)]: a stable sort (ECMAScript 2019), written as
    an insertion sort; [cmp a b > 0] puts [b] first, and elements that
    compare equal keep their order. *)
Fixpoint insert_by {A} (cmp : A -> A -> Z) (x : A) (l : list A) : list A :=
  match l with
  | [] => [x]
  | y :: t => if 0 <? cmp x y then y :: insert_by cmp x t else x :: l
  end.

Fixpoint sort_by {A} (cmp : A -> A -> Z) (l : list A) : list A :=
  match l with
  | [] => []
  | x :: t => insert_by cmp x (sort_by cmp t)
  end.

End Js.
Import Js.

(* ================================================================== *)
(** ** Regular expressions *)

Module Regex.

(** The fragment of JavaScript regular expressions the webhook uses: classes,
    sequence, alternation, greedy [?], greedy [*] over a class, and one
    capturing group. *)
Inductive regex : Type :=
| Class (p : N -> bool)
| Seq (r1 r2 : regex)
| Alt (r1 r2 : regex)
| Opt (r : regex)
| Star (p : N -> bool)
| Group (r : regex).

Definition Plus (p : N -> bool) : regex := Seq (Class p) (Star p).

(** Greedy [p*] followed by the continuation [k]: the longest run first,
    giving code units back one at a time while [k] fails. *)
Fixpoint star {A} (p : N -> bool) (s : js_string)
    (k : js_string -> option A) : option A :=
  match s with
  | c :: t =>
      if p c then
        match star p t k with
        | Some a => Some a
        | None => k s
        end
      else k s
  | [] => k s
  end.

(** Backtracking matcher in continuation-passing style.  [cap] is the text
    of group 1 so far (empty when the group has not matched). *)
Fixpoint rmatch {A} (r : regex) (s cap : js_string)
    (k : js_string -> js_string -> option A) : option A :=
  match r with
  | Class p =>
      match s with
      | c :: t => if p c then k t cap else None
      | [] => None
      end
  | Seq r1 r2 => rmatch r1 s cap (fun s' cap' => rmatch r2 s' cap' k)
  | Alt r1 r2 =>
      match rmatch r1 s cap k with
      | Some a => Some a
      | None => rmatch r2 s cap k
      end
  | Opt r1 =>
      match rmatch r1 s cap k with
      | Some a => Some a
      | None => k s cap
      end
  | Star p => star p s (fun s' => k s' cap)
  | Group r1 =>
      rmatch r1 s cap
        (fun s' _ => k s' (firstn (List.length s - List.length s') s))
  end.

(** The match of [r] at the start of [s]: the text of group 1. *)
Definition match_here (r : regex) (s : js_string) : option js_string :=
  rmatch r s [] (fun _ cap => Some cap).

(** [text.match(r)] without the [g] flag: the match at the leftmost start
    position that has one; the result is group 1 of that match. *)
Fixpoint exec (r : regex) (s : js_string) : option js_string :=
  match match_here r s with
  | Some cap => Some cap
  | None => match s with
            | [] => None
            | _ :: t => exec r t
            end
  end.

(** Character classes.  Under the [i] flag a pattern letter matches both of
    its cases, and no other code unit (without the [u] flag a non-ASCII code
    unit never canonicalizes to an ASCII one). *)
Definition chr (a : ascii) : N -> bool := fun c => N.eqb c (cu a).

Definition chr_i (a : ascii) : N -> bool :=
  fun c =>
    let x := cu a in
    if is_upper x then N.eqb c x || N.eqb c (x + 32)
    else if is_lower x then N.eqb c x || N.eqb c (x - 32)
    else N.eqb c x.

Fixpoint word_i_aux (l : list ascii) (last : ascii) : regex :=
  match l with
  | [] => Class (chr_i last)
  | b :: t => Seq (Class (chr_i last)) (word_i_aux t b)
  end.

(** A literal word under the [i] flag (the word is not empty). *)
Definition word_i (s : string) : regex :=
  match list_ascii_of_string s with
  | [] => Opt (Class (fun _ => false))
  | a :: t => word_i_aux t a
  end.

(** [\s]: WhiteSpace and LineTerminator code units. *)
Definition is_space (c : N) : bool :=
  ((9 <=? c) && (c <=? 13) || (c =? 32) || (c =? 160) || (c =? 5760)
   || (8192 <=? c) && (c <=? 8202) || (c =? 8232) || (c =? 8233)
   || (c =? 8239) || (c =? 8287) || (c =? 12288) || (c =? 65279))%N.

(** [[\d,]] *)
Definition digit_or_comma (c : N) : bool := is_digit c || N.eqb c (cu ",").
(** [[:\s]] *)
Definition colon_or_space (c : N) : bool := N.eqb c (cu ":") || is_space c.
(** [[A-Z0-9]] under the [i] flag *)
Definition alnum_i (c : N) : bool := is_alpha c || is_digit c.
(** [[a-zA-Z0-9._-]] *)
Definition vpa_local (c : N) : bool :=
  is_alpha c || is_digit c || N.eqb c (cu ".") || N.eqb c (cu "_")
  || N.eqb c (cu "-").

End Regex.
Import Regex.

(* ================================================================== *)
(** ** The SMS parser (webhook handler, [routes.ts]) *)

Module Parser.

(** [/Rs\.?\s*([\d,]+(?:\.\d{2})?)/i] *)
Definition amountRe : regex :=
  Seq (word_i "Rs")
    (Seq (Opt (Class (chr ".")))
       (Seq (Star is_space)
          (Group (Seq (Plus digit_or_comma)
                    (Opt (Seq (Class (chr "."))
                            (Seq (Class is_digit) (Class is_digit)))))))).

(** [/(?:UTR|UPI|Ref|TxnId)[:\s]*([A-Z0-9]+)/i] *)
Definition utrRe : regex :=
  Seq (Alt (word_i "UTR") (Alt (word_i "UPI") (Alt (word_i "Ref") (word_i "TxnId"))))
    (Seq (Star colon_or_space) (Group (Plus alnum_i))).

(** [/([a-zA-Z0-9._-]+@[a-zA-Z]+)/] *)
Definition vpaRe : regex :=
  Group (Seq (Plus vpa_local) (Seq (Class (chr "@")) (Plus is_alpha))).

Definition amountMatch (text : js_string) : option js_string := exec amountRe text.
Definition utrMatch (text : js_string) : option js_string := exec utrRe text.
Definition vpaMatch (text : js_string) : option js_string := exec vpaRe text.

(** [amountMatch ? Math.round(parseFloat(amountMatch[1].replace(/,/g, '')) * 100) : null] *)
Definition parsedAmount (text : js_string) : option jsnum :=
  match amountMatch text with
  | Some g1 => Some (Math_round (jmul (parseFloat (remove_all (cu ",") g1)) 100))
  | None => None
  end.

(** [m?.[1] || null]: an empty string is falsy. *)
Definition group_or_null (m : option js_string) : option js_string :=
  match m with
  | Some (c :: g) => Some (c :: g)
  | _ => None
  end.

(** [parsedAmount ? 80 : 50] *)
Definition parseConfidence (amount : option jsnum) : Z :=
  if truthy_num amount then 80 else 50.

(** The parsed fields the webhook stores with the message. *)
Record ParsedSignal : Type := {
  sig_amount : option jsnum;
  sig_vpa : option js_string;
  sig_utr : option js_string;
  sig_confidence : Z
}.

Definition parse (text : js_string) : ParsedSignal :=
  let amount := parsedAmount text in
  {| sig_amount := amount;
     sig_vpa := group_or_null (vpaMatch text);
     sig_utr := group_or_null (utrMatch text);
     sig_confidence := parseConfidence amount |}.

End Parser.
Import Parser.

(* ================================================================== *)
(** ** Tables ([shared/schema.ts]) *)

Module Schema.

(** Primary and foreign keys ([varchar(36)], [gen_random_uuid()]): the
    handlers only compare them, so a key is a number and the database draws
    new ones from a counter. *)
Definition Id := N.
Bind Scope N_scope with Id.

(** A [timestamp]: milliseconds since the epoch. *)
Definition Date := Z.

Inductive payment_status : Type :=
| Pending | Paid | Unidentified | Partial | Expired.

Definition status_eqb (a b : payment_status) : bool :=
  match a, b with
  | Pending, Pending | Paid, Paid | Unidentified, Unidentified
  | Partial, Partial | Expired, Expired => true
  | _, _ => false
  end.

(** The columns the modelled handlers read or write; the others
    ([deviceName], [invoiceNo], [upiUri], [rawJson], the [createdAt] of the
    tables that are never ordered by it, ...) are left out. *)
Record Device : Type := {
  dev_id : Id;
  deviceUuid : js_string;
  dev_userId : Id;
  webhookTokenHash : js_string;
  lastSeenAt : option Date;
  revokedAt : option Date
}.

Record PaymentRequest : Type := {
  pr_id : Id;
  pr_shopId : Id;
  pr_branchId : Id;
  amountCents : Z;
  pr_status : payment_status;
  shortTokenExpiresAt : Date;
  pr_createdAt : Date;
  paidAt : option Date
}.

Record SmsInbox : Type := {
  sms_id : Id;
  sms_deviceId : option Id;
  rawText : js_string;
  sender : js_string;
  receivedAt : Date;
  parsedAmountCents : option Z;
  parsedVpa : option js_string;
  parsedUtr : option js_string;
  parseConfidence : option Z;
  matchedRequestId : option Id;
  processedAt : option Date
}.

Record Payment : Type := {
  pay_id : Id;
  pay_requestId : Id;
  transactionId : js_string;
  pay_amountCents : Z;
  verifiedBy : option Id;
  verifiedAt : Date;
  notes : option js_string
}.

Record MatchHistory : Type := {
  mh_id : Id;
  mh_requestId : Id;
  smsInboxId : option Id;
  matchScore : option Z;
  matchType : string;
  matchedBy : option Id;
  note : option js_string
}.

Record AuditLog : Type := {
  al_userId : option Id;
  action : string;
  entityType : string;
  entityId : option Id
}.

Record Db : Type := {
  devices : list Device;
  paymentRequests : list PaymentRequest;
  smsInbox : list SmsInbox;
  payments : list Payment;
  matchHistory : list MatchHistory;
  auditLogs : list AuditLog;
  next_id : Id
}.

(** A PostgreSQL [integer] column holds a 32-bit signed integer. *)
Definition int4 (z : Z) : bool := (-2147483648 <=? z) && (z <=? 2147483647).

(** The value an [integer] column takes from a JavaScript number, when it
    takes it: [NaN], a fraction or a number out of range is refused. *)
Definition to_int4 (a : jsnum) : option Z :=
  match a with
  | JNaN => None
  | JNum q =>
      let z := Qfloor q in
      if Qeq_bool q (inject_Z z) && int4 z then Some z else None
  end.

(** [varchar(n)] *)
Definition varchar (n : nat) (s : js_string) : bool :=
  Nat.leb (List.length s) n.

Definition varchar_opt (n : nat) (s : option js_string) : bool :=
  match s with
  | Some x => varchar n x
  | None => true
  end.

(** Setters, for the [Partial<T>] updates the handlers pass. *)
Definition set_lastSeenAt (t : option Date) (d : Device) : Device :=
  {| dev_id := dev_id d; deviceUuid := deviceUuid d; dev_userId := dev_userId d;
     webhookTokenHash := webhookTokenHash d; lastSeenAt := t;
     revokedAt := revokedAt d |}.

Definition set_paid (t : Date) (r : PaymentRequest) : PaymentRequest :=
  {| pr_id := pr_id r; pr_shopId := pr_shopId r; pr_branchId := pr_branchId r;
     amountCents := amountCents r; pr_status := Paid;
     shortTokenExpiresAt := shortTokenExpiresAt r;
     pr_createdAt := pr_createdAt r; paidAt := Some t |}.

Definition set_processedAt (t : option Date) (m : SmsInbox) : SmsInbox :=
  {| sms_id := sms_id m; sms_deviceId := sms_deviceId m; rawText := rawText m;
     sender := sender m; receivedAt := receivedAt m;
     parsedAmountCents := parsedAmountCents m; parsedVpa := parsedVpa m;
     parsedUtr := parsedUtr m; parseConfidence := parseConfidence m;
     matchedRequestId := matchedRequestId m; processedAt := t |}.

Definition set_matchedRequestId (r : option Id) (m : SmsInbox) : SmsInbox :=
  {| sms_id := sms_id m; sms_deviceId := sms_deviceId m; rawText := rawText m;
     sender := sender m; receivedAt := receivedAt m;
     parsedAmountCents := parsedAmountCents m; parsedVpa := parsedVpa m;
     parsedUtr := parsedUtr m; parseConfidence := parseConfidence m;
     matchedRequestId := r; processedAt := processedAt m |}.

Definition with_devices (l : list Device) (d : Db) : Db :=
  {| devices := l; paymentRequests := paymentRequests d; smsInbox := smsInbox d;
     payments := payments d; matchHistory := matchHistory d;
     auditLogs := auditLogs d; next_id := next_id d |}.

Definition with_paymentRequests (l : list PaymentRequest) (d : Db) : Db :=
  {| devices := devices d; paymentRequests := l; smsInbox := smsInbox d;
     payments := payments d; matchHistory := matchHistory d;
     auditLogs := auditLogs d; next_id := next_id d |}.

Definition with_smsInbox (l : list SmsInbox) (d : Db) : Db :=
  {| devices := devices d; paymentRequests := paymentRequests d; smsInbox := l;
     payments := payments d; matchHistory := matchHistory d;
     auditLogs := auditLogs d; next_id := next_id d |}.

(** The [insert]s: the new row goes last and takes the next key. *)
Definition add_smsInbox (m : SmsInbox) (d : Db) : Db :=
  {| devices := devices d; paymentRequests := paymentRequests d;
     smsInbox := smsInbox d ++ [m]; payments := payments d;
     matchHistory := matchHistory d; auditLogs := auditLogs d;
     next_id := N.succ (next_id d) |}.

Definition add_payment (p : Payment) (d : Db) : Db :=
  {| devices := devices d; paymentRequests := paymentRequests d;
     smsInbox := smsInbox d; payments := payments d ++ [p];
     matchHistory := matchHistory d; auditLogs := auditLogs d;
     next_id := N.succ (next_id d) |}.

Definition add_matchHistory (h : MatchHistory) (d : Db) : Db :=
  {| devices := devices d; paymentRequests := paymentRequests d;
     smsInbox := smsInbox d; payments := payments d;
     matchHistory := matchHistory d ++ [h]; auditLogs := auditLogs d;
     next_id := N.succ (next_id d) |}.

Definition add_auditLog (a : AuditLog) (d : Db) : Db :=
  {| devices := devices d; paymentRequests := paymentRequests d;
     smsInbox := smsInbox d; payments := payments d;
     matchHistory := matchHistory d; auditLogs := auditLogs d ++ [a];
     next_id := N.succ (next_id d) |}.

End Schema.
Import Schema.

(* ================================================================== *)
(** ** The persistence layer ([server/storage.ts]) *)

Module Storage.

(** A settled promise. *)
Inductive result (A : Type) : Type :=
| Ok (a : A)
| Throw.
Arguments Ok {A} a.
Arguments Throw {A}.

(** The database together with a fault plan: the n-th storage call of a
    handler is rejected when the n-th entry of the plan is [true] (a call
    beyond the plan is not).  A fault stands for every rejection the tables
    above do not decide: a lost connection, a constraint on a column or a
    table left out. *)
Record World : Type := {
  db : Db;
  faults : list bool
}.

Definition M (A : Type) : Type := World -> result A * World.

Definition ret {A} (a : A) : M A := fun w => (Ok a, w).

Definition bind {A B} (m : M A) (f : A -> M B) : M B :=
  fun w =>
    match m w with
    | (Ok a, w') => f a w'
    | (Throw, w') => (Throw, w')
    end.

Declare Scope storage_scope.
Delimit Scope storage_scope with storage.
Notation "x <- m ;; k" := (bind m (fun x => k))
  (at level 61, m at next level, right associativity) : storage_scope.
Local Open Scope storage_scope.

Definition next_fault (w : World) : bool * World :=
  match faults w with
  | [] => (false, w)
  | b :: fs => (b, {| db := db w; faults := fs |})
  end.

(** A [select]. *)
Definition query {A} (q : Db -> A) : M A :=
  fun w =>
    let (b, w') := next_fault w in
    if b then (Throw, w') else (Ok (q (db w')), w').

(** An [insert] or [update]: [None] when a constraint refuses it. *)
Definition statement {A} (st : Db -> option (A * Db)) : M A :=
  fun w =>
    let (b, w') := next_fault w in
    if b then (Throw, w')
    else match st (db w') with
         | Some (a, d) => (Ok a, {| db := d; faults := faults w' |})
         | None => (Throw, w')
         end.

(** [update t set ... where id = ...], the rows as returned. *)
Definition update_where {A} (p : A -> bool) (f : A -> A) (l : list A) : list A :=
  List.map (fun x => if p x then f x else x) l.

(** [orderBy(desc(col))].  SQL leaves the order of rows with equal keys
    open; here they keep the order of the table. *)
Definition order_desc {A} (key : A -> Z) (l : list A) : list A :=
  sort_by (fun a b => key b - key a) l.

(* ---- Devices ---- *)

Definition getDeviceByUuid (deviceUuid' : js_string) : M (option Device) :=
  query (fun d => List.find (fun x => str_eqb (deviceUuid x) deviceUuid') (devices d)).

Definition updateDevice (id : Id) (updates : Device -> Device) : M (option Device) :=
  statement (fun d =>
    let l := update_where (fun x => N.eqb (dev_id x) id) updates (devices d) in
    Some (List.find (fun x => N.eqb (dev_id x) id) l, with_devices l d)).

(* ---- Payment requests ---- *)

Inductive status_filter : Type :=
| AllStatuses
| Status (s : payment_status).

Record RequestFilters : Type := {
  f_shopId : option Id;
  f_branchId : option Id;
  f_status : option status_filter;
  f_limit : option nat
}.

(** [eq(paymentRequests.status, filters.status)], pushed unless the filter
    is missing or "all". *)
Definition status_cond (f : option status_filter) (r : PaymentRequest) : bool :=
  match f with
  | Some (Status s) => status_eqb (pr_status r) s
  | _ => true
  end.

(** [and(...conditions)] *)
Definition request_conditions (f : RequestFilters) (r : PaymentRequest) : bool :=
  match f_shopId f with
  | Some shop => N.eqb (pr_shopId r) shop
  | None => true
  end
  && match f_branchId f with
     | Some branch => N.eqb (pr_branchId r) branch
     | None => true
     end
  && status_cond (f_status f) r.

(** [query.limit(filters.limit)] when [filters.limit] is truthy. *)
Definition apply_limit {A} (lim : option nat) (l : list A) : list A :=
  match lim with
  | Some (S n) => firstn (S n) l
  | _ => l
  end.

Definition getPaymentRequests_rows (f : RequestFilters) (d : Db) : list PaymentRequest :=
  apply_limit (f_limit f)
    (order_desc pr_createdAt (List.filter (request_conditions f) (paymentRequests d))).

Definition getPaymentRequests (f : RequestFilters) : M (list PaymentRequest) :=
  query (getPaymentRequests_rows f).

Definition getPaymentRequest (id : Id) : M (option PaymentRequest) :=
  query (fun d => List.find (fun r => N.eqb (pr_id r) id) (paymentRequests d)).

Definition updatePaymentRequest (id : Id) (updates : PaymentRequest -> PaymentRequest)
    : M (option PaymentRequest) :=
  statement (fun d =>
    let l := update_where (fun r => N.eqb (pr_id r) id) updates (paymentRequests d) in
    Some (List.find (fun r => N.eqb (pr_id r) id) l, with_paymentRequests l d)).

(* ---- SMS inbox ---- *)

Definition getSmsInbox (id : Id) : M (option SmsInbox) :=
  query (fun d => List.find (fun m => N.eqb (sms_id m) id) (smsInbox d)).

Definition is_null {A} (o : option A) : bool :=
  match o with
  | None => true
  | Some _ => false
  end.

(** The [shopId] argument is not used by the method. *)
Definition getUnidentifiedSms_rows (shopId : option Id) (d : Db) : list SmsInbox :=
  order_desc receivedAt (List.filter (fun m => is_null (matchedRequestId m)) (smsInbox d)).

Definition getUnidentifiedSms (shopId : option Id) : M (list SmsInbox) :=
  query (getUnidentifiedSms_rows shopId).

(** [InsertSmsInbox], with the values as the handler computes them: the
    amount is a JavaScript number and the date may be an Invalid Date
    ([None]). *)
Record InsertSmsInbox : Type := {
  ins_deviceId : option Id;
  ins_rawText : js_string;
  ins_sender : js_string;
  ins_receivedAt : option Date;
  ins_parsedAmountCents : option jsnum;
  ins_parsedVpa : option js_string;
  ins_parsedUtr : option js_string;
  ins_parseConfidence : option Z;
  ins_matchedRequestId : option Id
}.

Definition amount_column (a : option jsnum) : option (option Z) :=
  match a with
  | None => Some None
  | Some x => match to_int4 x with
              | Some z => Some (Some z)
              | None => None
              end
  end.

Definition createSmsInbox_row (i : InsertSmsInbox) (d : Db) : option SmsInbox :=
  match ins_receivedAt i, amount_column (ins_parsedAmountCents i) with
  | Some t, Some amount =>
      if varchar_opt 50 (ins_parsedUtr i) then
        Some {| sms_id := next_id d; sms_deviceId := ins_deviceId i;
                rawText := ins_rawText i; sender := ins_sender i;
                receivedAt := t; parsedAmountCents := amount;
                parsedVpa := ins_parsedVpa i; parsedUtr := ins_parsedUtr i;
                parseConfidence := ins_parseConfidence i;
                matchedRequestId := ins_matchedRequestId i;
                processedAt := None |}
      else None
  | _, _ => None
  end.

Definition createSmsInbox (i : InsertSmsInbox) : M SmsInbox :=
  statement (fun d =>
    match createSmsInbox_row i d with
    | Some m => Some (m, add_smsInbox m d)
    | None => None
    end).

Definition updateSmsInbox (id : Id) (updates : SmsInbox -> SmsInbox) : M (option SmsInbox) :=
  statement (fun d =>
    let l := update_where (fun m => N.eqb (sms_id m) id) updates (smsInbox d) in
    Some (List.find (fun m => N.eqb (sms_id m) id) l, with_smsInbox l d)).

(* ---- Payments ---- *)

Definition getPaymentByTransactionId_row (transactionId' : js_string) (d : Db) : option Payment :=
  List.find (fun p => str_eqb (transactionId p) transactionId') (payments d).

Definition getPaymentByTransactionId (transactionId' : js_string) : M (option Payment) :=
  query (getPaymentByTransactionId_row transactionId').

Record InsertPayment : Type := {
  ip_requestId : Id;
  ip_transactionId : js_string;
  ip_amountCents : Z;
  ip_verifiedBy : option Id;
  ip_verifiedAt : Date;
  ip_notes : option js_string
}.

(** [transactionId] is [varchar(50)] and [unique]; [amountCents] is an
    [integer]. *)
Definition createPayment_row (i : InsertPayment) (d : Db) : option Payment :=
  if int4 (ip_amountCents i) && varchar 50 (ip_transactionId i)
     && is_null (getPaymentByTransactionId_row (ip_transactionId i) d)
  then Some {| pay_id := next_id d; pay_requestId := ip_requestId i;
               transactionId := ip_transactionId i;
               pay_amountCents := ip_amountCents i;
               verifiedBy := ip_verifiedBy i; verifiedAt := ip_verifiedAt i;
               notes := ip_notes i |}
  else None.

Definition createPayment (i : InsertPayment) : M Payment :=
  statement (fun d =>
    match createPayment_row i d with
    | Some p => Some (p, add_payment p d)
    | None => None
    end).

(* ---- Match history ---- *)

Record InsertMatchHistory : Type := {
  imh_requestId : Id;
  imh_smsInboxId : option Id;
  imh_matchScore : option Z;
  imh_matchType : string;
  imh_matchedBy : option Id;
  imh_note : option js_string
}.

Definition createMatchHistory_row (i : InsertMatchHistory) (d : Db) : MatchHistory :=
  {| mh_id := next_id d; mh_requestId := imh_requestId i;
     smsInboxId := imh_smsInboxId i; matchScore := imh_matchScore i;
     matchType := imh_matchType i; matchedBy := imh_matchedBy i;
     note := imh_note i |}.

Definition createMatchHistory (i : InsertMatchHistory) : M MatchHistory :=
  statement (fun d =>
    let h := createMatchHistory_row i d in Some (h, add_matchHistory h d)).

(* ---- Audit logs ---- *)

Definition createAuditLog (a : AuditLog) : M AuditLog :=
  statement (fun d => Some (a, add_auditLog a d)).

End Storage.
Import Storage.

(* ================================================================== *)
(** ** The handlers ([server/routes.ts]) *)

Module Routes.

Local Open Scope storage_scope.

(** [req.user], as [authenticateToken] leaves it. *)
Record AuthUser : Type := {
  user_id : Id;
  user_shopId : option Id
}.

(** A candidate of [GET /api/sms/:id/candidates]: [{ ...r, matchScore }]. *)
Record Candidate : Type := {
  cand_request : PaymentRequest;
  cand_score : Z
}.

Inductive Body : Type :=
| ErrorBody (error : string)
| ValidationError
| Message (message : string)
| SmsReceived (id : Id)
| SmsList (l : list SmsInbox)
| CandidateList (l : list Candidate)
| PaymentBody (p : Payment).

Record Response : Type := {
  status : Z;
  body : Body
}.

Definition json (b : Body) : Response := {| status := 200; body := b |}.
Definition fail (code : Z) (msg : string) : Response :=
  {| status := code; body := ErrorBody msg |}.

(** [try { ... } catch (error) { res.status(500).json(...) }] *)
Definition try_catch (m : M Response) (on_error : Response) : World -> Response * World :=
  fun w =>
    match m w with
    | (Ok r, w') => (r, w')
    | (Throw, w') => (on_error, w')
    end.

(** [logAudit]: a failure to write the log is swallowed. *)
Definition logAudit (userId : Id) (action' entityType' : string) (entityId' : Id) : M unit :=
  fun w =>
    match createAuditLog {| al_userId := Some userId; action := action';
                            entityType := entityType'; entityId := Some entityId' |} w with
    | (_, w') => (Ok tt, w')
    end.

(** [a || b] on strings and on nullable values. *)
Definition str_or (a : option js_string) (b : option js_string) : option js_string :=
  match a with
  | Some (c :: s) => Some (c :: s)
  | _ => b
  end.

Definition int_or (a : option Z) (b : Z) : Z :=
  match a with
  | Some z => if z =? 0 then b else z
  | None => b
  end.

(* ---- POST /api/sms/webhook ---- *)

(** [smsWebhookSchema]; [receivedAt] is given as the time [new Date(...)]
    makes of it, [None] for an Invalid Date. *)
Record SmsWebhookInput : Type := {
  deviceId : js_string;
  from : js_string;
  text : js_string;
  wh_receivedAt : option Date
}.

(** The two headers the handler reads, and [req.body] as
    [smsWebhookSchema.parse] reads it ([None] when it throws a ZodError). *)
Record WebhookRequest : Type := {
  x_webhook_token : option js_string;
  authorization : option js_string;
  wh_body : option SmsWebhookInput
}.

Section WithHash.

(** [crypto.createHash('sha256').update(token).digest('hex')] *)
Variable hashToken : js_string -> js_string.

(** The token the handler hashes, when a header carries one: [authHeader]
    is [x-webhook-token || authorization], and [!authHeader] holds for a
    missing header and for an empty one. *)
Definition presented_token (req : WebhookRequest) : option js_string :=
  match str_or (x_webhook_token req) (authorization req) with
  | Some (c :: s) => Some (replace_first (lit "Bearer ") [] (c :: s))
  | _ => None
  end.

Definition is_some {A} (o : option A) : bool := negb (is_null o).

Definition insert_of_signal (device : Device) (data : SmsWebhookInput) : InsertSmsInbox :=
  let p := parse (text data) in
  {| ins_deviceId := Some (dev_id device);
     ins_rawText := text data;
     ins_sender := from data;
     ins_receivedAt := wh_receivedAt data;
     ins_parsedAmountCents := sig_amount p;
     ins_parsedVpa := sig_vpa p;
     ins_parsedUtr := sig_utr p;
     ins_parseConfidence := Some (sig_confidence p);
     ins_matchedRequestId := None |}.

Definition post_sms_webhook (req : WebhookRequest) (now : Date)
    : World -> Response * World :=
  try_catch
    (match presented_token req with
     | None => ret (fail 401 "Webhook token required")
     | Some token =>
         let tokenHash := hashToken token in
         match wh_body req with
         | None => ret {| status := 400; body := ValidationError |}
         | Some data =>
             device <- getDeviceByUuid (deviceId data) ;;
             match device with
             | None => ret (fail 403 "Invalid or revoked device")
             | Some device =>
                 if negb (str_eqb (webhookTokenHash device) tokenHash)
                    || is_some (revokedAt device)
                 then ret (fail 403 "Invalid or revoked device")
                 else
                   _ <- updateDevice (dev_id device) (set_lastSeenAt (Some now)) ;;
                   sms <- createSmsInbox (insert_of_signal device data) ;;
                   (* TODO of the source: auto-matching logic would go here *)
                   ret (json (SmsReceived (sms_id sms)))
             end
         end
     end)
    (fail 500 "Failed to process SMS").

End WithHash.

(* ---- GET /api/sms/unidentified ---- *)

Definition get_sms_unidentified (user : AuthUser) : World -> Response * World :=
  try_catch
    (unidentified <- getUnidentifiedSms (user_shopId user) ;;
     ret (json (SmsList unidentified)))
    (fail 500 "Failed to get unidentified SMS").

(* ---- GET /api/sms/:id/candidates ---- *)

(** [x === a] and [Math.abs(x - a)] for a nullable [a] ([null] is no number
    for [===] and counts as 0 in a subtraction). *)
Definition strict_eq (x : Z) (a : option Z) : bool :=
  match a with
  | Some z => x =? z
  | None => false
  end.

Definition abs_diff (x : Z) (a : option Z) : Z :=
  Z.abs (x - match a with Some z => z | None => 0 end).

(** The score of the [map] callback. *)
Definition match_score (sms : SmsInbox) (r : PaymentRequest) : Z :=
  if truthy_int (parsedAmountCents sms)
     && strict_eq (amountCents r) (parsedAmountCents sms) then 100
  else if truthy_int (parsedAmountCents sms)
          && (abs_diff (amountCents r) (parsedAmountCents sms) <? 100) then 80
  else 0.

Definition score_candidates (sms : SmsInbox) (requests : list PaymentRequest)
    : list Candidate :=
  sort_by (fun a b => cand_score b - cand_score a)
    (List.filter (fun c => 0 <? cand_score c)
       (List.map (fun r => {| cand_request := r; cand_score := match_score sms r |})
          requests)).

Definition pending_filters (user : AuthUser) : RequestFilters :=
  {| f_shopId := user_shopId user; f_branchId := None;
     f_status := Some (Status Pending); f_limit := None |}.

Definition get_sms_candidates (user : AuthUser) (id : Id) : World -> Response * World :=
  try_catch
    (sms <- getSmsInbox id ;;
     match sms with
     | None => ret (fail 404 "SMS not found")
     | Some sms =>
         requests <- getPaymentRequests (pending_filters user) ;;
         ret (json (CandidateList (score_candidates sms requests)))
     end)
    (fail 500 "Failed to get candidates").

(* ---- POST /api/sms/:id/manual-match ---- *)

(** [sms.parsedUtr || `MANUAL-${nanoid(8)}`]; [nonce] is what [nanoid(8)]
    returns. *)
Definition manual_transactionId (sms : SmsInbox) (nonce : js_string) : js_string :=
  match str_or (parsedUtr sms) None with
  | Some utr => utr
  | None => lit "MANUAL-" ++ nonce
  end.

Definition manual_payment (user : AuthUser) (sms : SmsInbox) (request : PaymentRequest)
    (paymentRequestId : Id) (note' : option js_string) (nonce : js_string) (now : Date)
    : InsertPayment :=
  {| ip_requestId := paymentRequestId;
     ip_transactionId := manual_transactionId sms nonce;
     ip_amountCents := int_or (parsedAmountCents sms) (amountCents request);
     ip_verifiedBy := Some (user_id user);
     ip_verifiedAt := now;
     ip_notes := str_or note' None |}.

Definition manual_history (user : AuthUser) (id paymentRequestId : Id)
    (note' : option js_string) : InsertMatchHistory :=
  {| imh_requestId := paymentRequestId;
     imh_smsInboxId := Some id;
     imh_matchScore := Some 100;
     imh_matchType := "manual";
     imh_matchedBy := Some (user_id user);
     imh_note := str_or note' None |}.

Definition post_sms_manual_match (user : AuthUser) (id paymentRequestId : Id)
    (note' : option js_string) (nonce : js_string) (now : Date)
    : World -> Response * World :=
  try_catch
    (sms <- getSmsInbox id ;;
     match sms with
     | None => ret (fail 404 "SMS not found")
     | Some sms =>
         request <- getPaymentRequest paymentRequestId ;;
         match request with
         | None => ret (fail 404 "Payment request not found")
         | Some request =>
             _ <- updateSmsInbox id
                    (fun m => set_processedAt (Some now)
                                (set_matchedRequestId (Some paymentRequestId) m)) ;;
             _ <- createPayment
                    (manual_payment user sms request paymentRequestId note' nonce now) ;;
             _ <- updatePaymentRequest paymentRequestId (set_paid now) ;;
             _ <- createMatchHistory (manual_history user id paymentRequestId note') ;;
             _ <- logAudit (user_id user) "manual_match" "payment" paymentRequestId ;;
             ret (json (Message "Match successful"))
         end
     end)
    (fail 500 "Failed to match SMS").

(* ---- POST /api/sms/:id/dismiss ---- *)

Definition post_sms_dismiss (user : AuthUser) (id : Id) (now : Date)
    : World -> Response * World :=
  try_catch
    (_ <- updateSmsInbox id (set_processedAt (Some now)) ;;
     _ <- logAudit (user_id user) "dismiss" "sms" id ;;
     ret (json (Message "SMS dismissed")))
    (fail 500 "Failed to dismiss SMS").

(* ---- POST /api/payments/verify ---- *)

(** [verifyPaymentSchema] *)
Record VerifyPaymentInput : Type := {
  vp_paymentRequestId : Id;
  vp_transactionId : js_string;
  vp_amountCents : Z;
  vp_notes : option js_string
}.

Definition verify_payment (user : AuthUser) (data : VerifyPaymentInput) (now : Date)
    : InsertPayment :=
  {| ip_requestId := vp_paymentRequestId data;
     ip_transactionId := vp_transactionId data;
     ip_amountCents := vp_amountCents data;
     ip_verifiedBy := Some (user_id user);
     ip_verifiedAt := now;
     ip_notes := str_or (vp_notes data) None |}.

Definition verify_history (user : AuthUser) (data : VerifyPaymentInput) : InsertMatchHistory :=
  {| imh_requestId := vp_paymentRequestId data;
     imh_smsInboxId := None;
     imh_matchScore := Some 100;
     imh_matchType := "manual";
     imh_matchedBy := Some (user_id user);
     imh_note := str_or (vp_notes data) None |}.

(** [body] is [req.body] as [verifyPaymentSchema.parse] reads it. *)
Definition post_payments_verify (user : AuthUser) (body' : option VerifyPaymentInput)
    (now : Date) : World -> Response * World :=
  try_catch
    (match body' with
     | None => ret {| status := 400; body := ValidationError |}
     | Some data =>
         request <- getPaymentRequest (vp_paymentRequestId data) ;;
         match request with
         | None => ret (fail 404 "Payment request not found")
         | Some _ =>
             existingPayment <- getPaymentByTransactionId (vp_transactionId data) ;;
             match existingPayment with
             | Some _ => ret (fail 400 "Transaction ID already used")
             | None =>
                 payment <- createPayment (verify_payment user data now) ;;
                 _ <- updatePaymentRequest (vp_paymentRequestId data) (set_paid now) ;;
                 _ <- createMatchHistory (verify_history user data) ;;
                 _ <- logAudit (user_id user) "verify" "payment" (pay_id payment) ;;
                 ret (json (PaymentBody payment))
             end
         end
     end)
    (fail 500 "Failed to verify payment").

End Routes.
Import Routes.


(* ================================================================== *)
(** * Devices, statistics and authentication *)

(** ** Devices ([storage.ts], [routes.ts]) *)

Module Devices.

Local Open Scope storage_scope.

(** [InsertDevice] ([deviceName] is left out, as in [Device]). *)
Record InsertDevice : Type := {
  ind_deviceUuid : js_string;
  ind_userId : Id;
  ind_webhookTokenHash : js_string
}.

Definition set_revokedAt (t : option Date) (d : Device) : Device :=
  {| dev_id := dev_id d; deviceUuid := deviceUuid d; dev_userId := dev_userId d;
     webhookTokenHash := webhookTokenHash d; lastSeenAt := lastSeenAt d;
     revokedAt := t |}.

Definition add_device (x : Device) (d : Db) : Db :=
  {| devices := devices d ++ [x]; paymentRequests := paymentRequests d;
     smsInbox := smsInbox d; payments := payments d;
     matchHistory := matchHistory d; auditLogs := auditLogs d;
     next_id := N.succ (next_id d) |}.

(** [deviceUuid] is [varchar(64)] and [unique]; the foreign key to the
    user is taken to hold, the caller being a signed-in user. *)
Definition createDevice_row (i : InsertDevice) (d : Db) : option Device :=
  if varchar 64 (ind_deviceUuid i)
     && is_null (List.find (fun x => str_eqb (deviceUuid x) (ind_deviceUuid i)) (devices d))
  then Some {| dev_id := next_id d; deviceUuid := ind_deviceUuid i;
               dev_userId := ind_userId i;
               webhookTokenHash := ind_webhookTokenHash i;
               lastSeenAt := None; revokedAt := None |}
  else None.

Definition createDevice (i : InsertDevice) : M Device :=
  statement (fun d =>
    match createDevice_row i d with
    | Some x => Some (x, add_device x d)
    | None => None
    end).



(** What the routes of this part answer. *)
Inductive Payload : Type :=
| Failure (error : string)
| Invalid
| Done (message : string)
| DeviceList (l : list Device)
| Registered (device : Device) (webhookToken : js_string).

Record Reply : Type := {
  code : Z;
  payload : Payload
}.

Definition reply_json (p : Payload) : Reply := {| code := 200; payload := p |}.
Definition reply_fail (c : Z) (msg : string) : Reply :=
  {| code := c; payload := Failure msg |}.

(** [try { ... } catch (error) { res.status(500).json(...) }] *)
Definition guarded {R} (m : M R) (on_error : R) : World -> R * World :=
  fun w =>
    match m w with
    | (Ok r, w') => (r, w')
    | (Throw, w') => (on_error, w')
    end.

(* ---- GET /api/devices ---- *)


Section WithHash.

Variable hashToken : js_string -> js_string.

(* ---- POST /api/devices/register ---- *)

(** [valid_body] says whether [registerDeviceSchema.parse(req.body)] returns;
    [deviceUuid] and [webhookToken] are what [nanoid(32)] and [nanoid(48)]
    return. *)
Definition post_devices_register (user : AuthUser) (valid_body : bool)
    (deviceUuid' webhookToken : js_string) : World -> Reply * World :=
  guarded
    (if valid_body then
       let webhookTokenHash' := hashToken webhookToken in
       device <- createDevice {| ind_deviceUuid := deviceUuid';
                                 ind_userId := user_id user;
                                 ind_webhookTokenHash := webhookTokenHash' |} ;;
       _ <- logAudit (user_id user) "register" "device" (dev_id device) ;;
       ret (reply_json (Registered device webhookToken))
     else ret {| code := 400; payload := Invalid |})
    (reply_fail 500 "Failed to register device").

End WithHash.

(* ---- POST /api/devices/:id/revoke ---- *)

Definition post_devices_revoke (user : AuthUser) (id : Id) (now : Date)
    : World -> Reply * World :=
  guarded
    (_ <- updateDevice id (set_revokedAt (Some now)) ;;
     _ <- logAudit (user_id user) "revoke" "device" id ;;
     ret (reply_json (Done "Device revoked")))
    (reply_fail 500 "Failed to revoke device").

End Devices.
Import Devices.

(** ** Statistics ([storage.ts], [routes.ts]) *)

Module Stats.

Local Open Scope storage_scope.

(** The SQL count of the rows with a null [matchedRequestId]; the [shopId]
    argument is not used.  [Number(result[0]?.count) || 0] is that count. *)
Definition getUnidentifiedCount_value (shopId : option Id) (d : Db) : Z :=
  Z.of_nat (List.length (List.filter (fun m => is_null (matchedRequestId m)) (smsInbox d))).

Definition getUnidentifiedCount (shopId : option Id) : M Z :=
  query (getUnidentifiedCount_value shopId).

Record DashboardStats : Type := {
  totalRequests : Z;
  pendingCount : Z;
  paidCount : Z;
  unidentifiedCount : Z;
  totalAmountCents : Z;
  paidAmountCents : Z;
  autoMatchRate : Q;
  avgTimeToMatch : Z
}.

(** [rows.filter((r) => r.status === s)] *)
Definition with_status (s : payment_status) (rows : list PaymentRequest)
    : list PaymentRequest :=
  List.filter (fun r => status_eqb (pr_status r) s) rows.

(** [rows.reduce((sum, r) => sum + r.amountCents, 0)] *)
Definition sum_amounts (rows : list PaymentRequest) : Z :=
  fold_left (fun sum r => sum + amountCents r) rows 0.

Definition count {A} (l : list A) : Z := Z.of_nat (List.length l).

(** The rate is computed in exact arithmetic (the source divides doubles). *)
Definition getDashboardStats_value (shopId : Id) (d : Db) : DashboardStats :=
  let allRequests := List.filter (fun r => N.eqb (pr_shopId r) shopId) (paymentRequests d) in
  let totalRequests' := count allRequests in
  let pendingCount' := count (with_status Pending allRequests) in
  let paidCount' := count (with_status Paid allRequests) in
  let unidentifiedCount' := count (with_status Unidentified allRequests) in
  let totalAmountCents' := sum_amounts (with_status Pending allRequests) in
  let paidAmountCents' := sum_amounts (with_status Paid allRequests) in
  let autoMatchRate' :=
    if 0 <? paidCount'
    then ((inject_Z paidCount' / inject_Z totalRequests') * inject_Z 100)%Q
    else 0%Q in
  {| totalRequests := totalRequests'; pendingCount := pendingCount';
     paidCount := paidCount'; unidentifiedCount := unidentifiedCount';
     totalAmountCents := totalAmountCents'; paidAmountCents := paidAmountCents';
     autoMatchRate := autoMatchRate'; avgTimeToMatch := 0 |}.

Definition getDashboardStats (shopId : Id) : M DashboardStats :=
  query (getDashboardStats_value shopId).

Definition no_stats : DashboardStats :=
  {| totalRequests := 0; pendingCount := 0; paidCount := 0; unidentifiedCount := 0;
     totalAmountCents := 0; paidAmountCents := 0; autoMatchRate := 0%Q;
     avgTimeToMatch := 0 |}.

(* ---- GET /api/stats/dashboard ---- *)

(** The answer: the statistics, or [None] for status 500. *)
Definition get_stats_dashboard (user : AuthUser) : World -> option DashboardStats * World :=
  guarded
    (match user_shopId user with
     | None => ret (Some no_stats)
     | Some shopId =>
         stats <- getDashboardStats shopId ;;
         ret (Some stats)
     end)
    None.

End Stats.
Import Stats.

(** ** Access tokens ([routes.ts], [client/src/lib/auth.tsx]) *)

Module Auth.

(** [s.split(" ")]: the fields between the separators; [cur] is the field
    being read, reversed. *)
Fixpoint split_aux (sep : N) (cur : js_string) (s : js_string) : list js_string :=
  match s with
  | [] => [rev cur]
  | c :: t => if N.eqb c sep then rev cur :: split_aux sep [] t
              else split_aux sep (c :: cur) t
  end.

Definition split (sep : N) (s : js_string) : list js_string := split_aux sep [] s.

(** [authHeader && authHeader.split(" ")[1]], as far as its truthiness
    goes: [None] when [!token]. *)
Definition header_token (authHeader : option js_string) : option js_string :=
  match authHeader with
  | Some (c :: s) =>
      match nth_error (split (cu " ") (c :: s)) 1 with
      | Some (x :: t) => Some (x :: t)
      | _ => None
      end
  | _ => None
  end.

Inductive Gate : Type :=
| Rejected (code : Z) (error : string)
| Next (user : AuthUser).

Section WithJwt.

(** [jwt.verify(token, JWT_SECRET)]: the decoded user, [None] when it
    throws. *)
Variable verify : js_string -> option AuthUser.

Definition authenticateToken (authorization' : option js_string) : Gate :=
  match header_token authorization' with
  | None => Rejected 401 "Access token required"
  | Some token =>
      match verify token with
      | Some decoded => Next decoded
      | None => Rejected 403 "Invalid or expired token"
      end
  end.

End WithJwt.

(** [fetchWithAuth] of the client: the header it adds for a token ([None]
    when [localStorage] has none, the empty string counts as none). *)
Definition client_authorization (token : option js_string) : option js_string :=
  match token with
  | Some (c :: s) => Some (lit "Bearer " ++ c :: s)
  | _ => None
  end.

End Auth.
Import Auth.

(* ================================================================== *)
(** * Vocabulary of the properties *)

(** Two keys: [k1] is the key sorted on (descending), [k2] a key the input
    is already sorted on (descending). *)
Definition lex_desc {A} (k1 k2 : A -> Z) (a b : A) : Prop :=
  k1 a > k1 b \/ (k1 a = k1 b /\ k2 a >= k2 b).

(** *** Storage

    No storage call is rejected. *)
Definition no_faults (w : World) : Prop := faults w = [].

(** *** Candidates

    The order of the returned candidates: higher scores first and, among
    equal scores, later creation times first. *)
Definition candidate_order (a b : Candidate) : Prop :=
  cand_score a > cand_score b
  \/ (cand_score a = cand_score b
      /\ pr_createdAt (cand_request a) >= pr_createdAt (cand_request b)).

(** The order as the specification words it: among equal scores, earlier
    creation times first. *)
Definition candidate_order_spec (a b : Candidate) : Prop :=
  cand_score a > cand_score b
  \/ (cand_score a = cand_score b
      /\ pr_createdAt (cand_request a) <= pr_createdAt (cand_request b)).

(** [isExpired] of the payment page:
    [new Date(payment.shortTokenExpiresAt) < new Date()]. *)
Definition isExpired (now : Date) (r : PaymentRequest) : bool :=
  shortTokenExpiresAt r <? now.

(** *** A shop with its requests and one received message *)

Module Example.

Definition user : AuthUser := {| user_id := 7%N; user_shopId := Some 5%N |}.

(** A pending request of shop 5. *)
Definition request (id : Id) (amount : Z) (expires created : Date) : PaymentRequest :=
  {| pr_id := id; pr_shopId := 5%N; pr_branchId := 6%N; amountCents := amount;
     pr_status := Pending; shortTokenExpiresAt := expires;
     pr_createdAt := created; paidAt := None |}.

(** Message 100, received at time 1000, unmatched. *)
Definition sms (amount : option Z) (utr : option js_string) : SmsInbox :=
  {| sms_id := 100%N; sms_deviceId := Some 1%N;
     rawText := lit "Rs. 500.00 credited"; sender := lit "BANK";
     receivedAt := 1000; parsedAmountCents := amount; parsedVpa := None;
     parsedUtr := utr; parseConfidence := Some 80;
     matchedRequestId := None; processedAt := None |}.

(** A stand-in for SHA-256, and the device that forwards the messages. *)
Definition hash (token : js_string) : js_string := lit "sha256:" ++ token.

Definition device : Device :=
  {| dev_id := 1%N; deviceUuid := lit "device-1"; dev_userId := 7%N;
     webhookTokenHash := hash (lit "secret"); lastSeenAt := None;
     revokedAt := None |}.

Definition database (requests : list PaymentRequest) (inbox : list SmsInbox) : Db :=
  {| devices := [device]; paymentRequests := requests; smsInbox := inbox;
     payments := []; matchHistory := []; auditLogs := []; next_id := 200%N |}.

Definition world (requests : list PaymentRequest) (inbox : list SmsInbox) : World :=
  {| db := database requests inbox; faults := [] |}.

End Example.

(** *** The amount pattern

    The literal of the pattern, [[\d,]+(?:\.\d{2})?], read directly: the
    longest run of digits and commas, and the "." and two digits after it
    when they are there. *)
Definition two_decimals (s : js_string) : bool :=
  match s with
  | dot :: d1 :: d2 :: _ => chr "." dot && is_digit d1 && is_digit d2
  | _ => false
  end.

Definition amount_literal (s : js_string) : option (js_string * js_string) :=
  let (ints, rest) := span digit_or_comma s in
  match ints with
  | [] => None
  | _ :: _ => Some (ints, if two_decimals rest then firstn 3 rest else [])
  end.

Definition skip_dot (s : js_string) : js_string :=
  match s with
  | c :: t => if chr "." c then t else s
  | [] => []
  end.

(** The whole pattern at the start of [s]. *)
Definition amount_here (s : js_string) : option (js_string * js_string) :=
  match s with
  | r :: c :: s1 =>
      if chr_i "R" r && chr_i "s" c
      then amount_literal (snd (span is_space (skip_dot s1)))
      else None
  | _ => None
  end.



(** The amount token at the start of a string, read off the pattern: "R"
    and "s" in either case, an optional ".", any white space, a run of
    digits and commas that is not empty and as long as possible, and then
    "." and two digits when they follow. *)
Inductive fraction_part : js_string -> js_string -> Prop :=
| TwoDecimals (d1 d2 : N) (rest : js_string) :
    is_digit d1 = true -> is_digit d2 = true ->
    fraction_part [cu "."; d1; d2] rest
| NoDecimals (rest : js_string) :
    two_decimals rest = false ->
    fraction_part [] rest.

Inductive amount_token : js_string -> js_string -> js_string -> Prop :=
| AmountToken (r c : N) (dot ws ints frac rest : js_string) :
    chr_i "R" r = true -> chr_i "s" c = true ->
    dot = [] \/ dot = [cu "."] ->
    Forall (fun x => is_space x = true) ws ->
    ints <> [] ->
    Forall (fun x => digit_or_comma x = true) ints ->
    fraction_part frac rest ->
    match frac ++ rest with
    | x :: _ => digit_or_comma x = false
    | [] => True
    end ->
    amount_token (r :: c :: dot ++ ws ++ ints ++ frac ++ rest) ints frac.


(** *** The webhook

    The gate of the webhook: the claimed device exists, the hash of the
    presented token is the stored one, and the device is not revoked. *)
Definition gate_passes (hashToken : js_string -> js_string) (req : WebhookRequest)
    (d : Db) (data : SmsWebhookInput) (device : Device) : Prop :=
  wh_body req = Some data
  /\ List.find (fun x => str_eqb (deviceUuid x) (deviceId data)) (devices d) = Some device
  /\ (exists token, presented_token req = Some token
                    /\ webhookTokenHash device = hashToken token)
  /\ revokedAt device = None.

(** The database once the device's last-seen time is updated. *)
Definition seen (device : Device) (now : Date) (d : Db) : Db :=
  with_devices (update_where (fun x => N.eqb (dev_id x) (dev_id device))
                  (set_lastSeenAt (Some now)) (devices d)) d.

Module WebhookExample.

(** The device forwards "Rs. 500.00 credited. UTR: ABC123XYZ". *)
Definition request : WebhookRequest :=
  {| x_webhook_token := None;
     authorization := Some (lit "Bearer secret");
     wh_body := Some {| deviceId := lit "device-1"; from := lit "BANK";
                        text := lit "Rs. 500.00 credited. UTR: ABC123XYZ";
                        wh_receivedAt := Some 1000 |} |}.

Definition data : SmsWebhookInput :=
  {| deviceId := lit "device-1"; from := lit "BANK";
     text := lit "Rs. 500.00 credited. UTR: ABC123XYZ";
     wh_receivedAt := Some 1000 |}.

(** One pending request of 500.00, no message yet. *)
Definition before : World := Example.world [Example.request 10 50000 9000 100] [].

End WebhookExample.

(** *** Applying a match

    The world after a storage call that leaves the database [d]. *)
Definition rest_of (d : Db) (w : World) : World := {| db := d; faults := tl (faults w) |}.

(** The position of the first rejected call of a plan. *)
Fixpoint first_fault (plan : list bool) : option nat :=
  match plan with
  | [] => None
  | true :: _ => Some 0%nat
  | false :: t => option_map S (first_fault t)
  end.

(** How many of the three settlement writes (payment, request status,
    match record) are committed under a plan, when [reads] storage calls
    come before the first of them. *)
Definition settlement_writes (reads : nat) (plan : list bool) : nat :=
  match first_fault plan with
  | None => 3%nat
  | Some i => Nat.min 3 (i - reads)
  end.

(** The database after [updateSmsInbox] of the manual match, and after
    [updatePaymentRequest]. *)
Definition matched_sms (id paymentRequestId : Id) (now : Date) (d : Db) : Db :=
  with_smsInbox
    (update_where (fun m => N.eqb (sms_id m) id)
       (fun m => set_processedAt (Some now) (set_matchedRequestId (Some paymentRequestId) m))
       (smsInbox d)) d.

Definition settled (paymentRequestId : Id) (now : Date) (d : Db) : Db :=
  with_paymentRequests
    (update_where (fun r => N.eqb (pr_id r) paymentRequestId) (set_paid now)
       (paymentRequests d)) d.

Module ManualExample.

(** Message 100 (amount 500.00, no reference) and the pending request 10. *)
Definition message : SmsInbox := Example.sms (Some 50000) None.
Definition request : PaymentRequest := Example.request 10 50000 9000 100.
Definition before : Db := Example.database [request] [message].

(** The payment a manual match of message 100 to request 10 creates. *)
Definition payment (id : Id) (nonce : js_string) : Payment :=
  {| pay_id := id; pay_requestId := 10%N; transactionId := lit "MANUAL-" ++ nonce;
     pay_amountCents := 50000; verifiedBy := Some 7%N; verifiedAt := 3000;
     notes := None |}.

End ManualExample.


(** ** Vocabulary of the further properties *)

(** The words of a regular expression.  [matches r w cap cap'] : the word
    [w] is matched by [r], and group 1, [cap] before, is [cap'] after. *)
Inductive matches : regex -> js_string -> js_string -> js_string -> Prop :=
| MClass (p : N -> bool) (c : N) (cap : js_string) :
    p c = true -> matches (Class p) [c] cap cap
| MSeq (r1 r2 : regex) (w1 w2 cap cap1 cap2 : js_string) :
    matches r1 w1 cap cap1 -> matches r2 w2 cap1 cap2 ->
    matches (Seq r1 r2) (w1 ++ w2) cap cap2
| MAltL (r1 r2 : regex) (w cap cap' : js_string) :
    matches r1 w cap cap' -> matches (Alt r1 r2) w cap cap'
| MAltR (r1 r2 : regex) (w cap cap' : js_string) :
    matches r2 w cap cap' -> matches (Alt r1 r2) w cap cap'
| MOptSome (r : regex) (w cap cap' : js_string) :
    matches r w cap cap' -> matches (Opt r) w cap cap'
| MOptNone (r : regex) (cap : js_string) :
    matches (Opt r) [] cap cap
| MStar (p : N -> bool) (w cap : js_string) :
    Forall (fun c => p c = true) w -> matches (Star p) w cap cap
| MGroup (r : regex) (w cap cap' : js_string) :
    matches r w cap cap' -> matches (Group r) w cap w.

(** A word equal to an ASCII word up to letter case. *)
Definition same_word_i (w : js_string) (s : string) : Prop :=
  Forall2 (fun c a => chr_i a c = true) w (list_ascii_of_string s).


(** The confidence of a stored message agrees with its stored amount. *)
Definition confidence_consistent (m : SmsInbox) : Prop :=
  parseConfidence m = Some (if truthy_int (parsedAmountCents m) then 80 else 50).

(** A plan under which the first [calls] storage calls are served and the
    next one, the write of the audit log, is rejected. *)
Definition audit_rejected (calls : nat) : list bool := repeat false calls ++ [true].

(** Two runs of a handler that agree on the answer and on every table but
    the audit log, the second leaving the audit log of [d]. *)
Definition same_but_audit {R} (d : Db) (ok r : R * World) : Prop :=
  fst r = fst ok
  /\ devices (db (snd r)) = devices (db (snd ok))
  /\ paymentRequests (db (snd r)) = paymentRequests (db (snd ok))
  /\ smsInbox (db (snd r)) = smsInbox (db (snd ok))
  /\ payments (db (snd r)) = payments (db (snd ok))
  /\ matchHistory (db (snd r)) = matchHistory (db (snd ok))
  /\ auditLogs (db (snd r)) = auditLogs d.

(* ================================================================== *)
(** * Properties *)

(** ** Stable sorting *)

Section StableSort.

Context {A : Type}.

Lemma insert_by_In (cmp : A -> A -> Z) (x y : A) (l : list A) :
  In y (insert_by cmp x l) <-> y = x \/ In y l.
Proof.
  induction l as [|z l IH]; simpl.
  - intuition.
  - destruct (0 <? cmp x z); simpl; rewrite ?IH; intuition.
Qed.

Lemma sort_by_In (cmp : A -> A -> Z) (y : A) (l : list A) :
  In y (sort_by cmp l) <-> In y l.
Proof.
  induction l as [|z l IH]; simpl.
  - tauto.
  - rewrite insert_by_In, IH. intuition.
Qed.

Lemma sort_by_Forall (cmp : A -> A -> Z) (P : A -> Prop) (l : list A) :
  Forall P l -> Forall P (sort_by cmp l).
Proof.
  rewrite !Forall_forall. intros H y Hy. apply H. now apply sort_by_In in Hy.
Qed.



Variables k1 k2 : A -> Z.

Let cmp1 (a b : A) : Z := k1 b - k1 a.

Lemma insert_by_lex (x : A) (l : list A) :
  StronglySorted (lex_desc k1 k2) l ->
  Forall (fun y => k2 x >= k2 y) l ->
  StronglySorted (lex_desc k1 k2) (insert_by cmp1 x l).
Proof.
  induction l as [|y l IH]; intros Hs Hx; simpl.
  - constructor; constructor.
  - apply StronglySorted_inv in Hs. destruct Hs as [Hs Hy].
    apply Forall_cons_iff in Hx. destruct Hx as [Hxy Hx].
    unfold cmp1 at 1. destruct (Z.ltb_spec 0 (k1 y - k1 x)) as [Hlt|Hge].
    + constructor.
      * now apply IH.
      * rewrite Forall_forall in *. intros z Hz.
        apply insert_by_In in Hz. destruct Hz as [->|Hz].
        -- left. lia.
        -- now apply Hy.
    + constructor.
      * now constructor.
      * constructor.
        -- unfold lex_desc. lia.
        -- rewrite Forall_forall in *. intros z Hz.
           specialize (Hy z Hz). specialize (Hx z Hz).
           unfold lex_desc in *. lia.
Qed.

(** A stable sort on [k1] of a list sorted on [k2] is sorted on the pair. *)
Lemma sort_by_lex (l : list A) :
  StronglySorted (fun a b => k2 a >= k2 b) l ->
  StronglySorted (lex_desc k1 k2) (sort_by cmp1 l).
Proof.
  induction l as [|x l IH]; intros Hs; simpl.
  - constructor.
  - apply StronglySorted_inv in Hs. destruct Hs as [Hs Hx].
    apply insert_by_lex.
    + now apply IH.
    + now apply sort_by_Forall.
Qed.

End StableSort.

Lemma order_desc_sorted {A} (key : A -> Z) (l : list A) :
  StronglySorted (fun a b => key a >= key b) (order_desc key l).
Proof.
  unfold order_desc.
  assert (H : StronglySorted (lex_desc key (fun _ => 0)) (sort_by (fun a b => key b - key a) l)).
  { apply (sort_by_lex key (fun _ => 0)).
    induction l; constructor; auto. rewrite Forall_forall. intros; lia. }
  revert H. generalize (sort_by (fun a b => key b - key a) l). intros s H.
  induction H as [|a s Hs IH Ha]; constructor; auto.
  rewrite Forall_forall in *. intros b Hb. specialize (Ha b Hb).
  unfold lex_desc in Ha. lia.
Qed.

Lemma order_desc_In {A} (key : A -> Z) (x : A) (l : list A) :
  In x (order_desc key l) <-> In x l.
Proof. apply sort_by_In. Qed.

Lemma StronglySorted_filter {A} (R : A -> A -> Prop) (p : A -> bool) (l : list A) :
  StronglySorted R l -> StronglySorted R (List.filter p l).
Proof.
  induction 1 as [|a l Hs IH Ha]; simpl.
  - constructor.
  - destruct (p a); auto. constructor; auto.
    rewrite Forall_forall in *. intros b Hb. apply filter_In in Hb. now apply Ha.
Qed.

Lemma StronglySorted_map {A B} (R : B -> B -> Prop) (f : A -> B) (l : list A) :
  StronglySorted (fun a b => R (f a) (f b)) l -> StronglySorted R (List.map f l).
Proof.
  induction 1 as [|a l Hs IH Ha]; simpl; constructor; auto.
  rewrite Forall_forall in *. intros b Hb. apply in_map_iff in Hb.
  destruct Hb as [c [<- Hc]]. now apply Ha.
Qed.

(* ================================================================== *)
(** ** Running a handler *)

(** A read leaves the database alone, rejected or not. *)
Lemma query_db {A} (q : Db -> A) (w : World) :
  db (snd (query q w)) = db w.
Proof.
  unfold query, next_fault. destruct w as [d [|[] fs]]; reflexivity.
Qed.

Lemma query_cases {A} (q : Db -> A) (w : World) :
  exists fs, (query q w = (Ok (q (db w)), {| db := db w; faults := fs |})
              \/ query q w = (Throw, {| db := db w; faults := fs |})).
Proof.
  unfold query, next_fault. destruct w as [d [|[] fs]]; simpl; eauto.
Qed.

Lemma query_no_faults {A} (q : Db -> A) (w : World) :
  no_faults w -> query q w = (Ok (q (db w)), w).
Proof.
  unfold no_faults, query, next_fault. destruct w as [d fs]; simpl.
  now intros ->.
Qed.

Lemma statement_no_faults {A} (st : Db -> option (A * Db)) (w : World) :
  no_faults w ->
  statement st w =
    match st (db w) with
    | Some (a, d) => (Ok a, {| db := d; faults := [] |})
    | None => (Throw, w)
    end.
Proof.
  unfold no_faults, statement, next_fault. destruct w as [d fs]; simpl.
  intros ->. destruct (st d) as [[a d']|] eqn:E; simpl; rewrite E; reflexivity.
Qed.

(* ================================================================== *)
(** ** The unidentified-SMS listing *)





(** A dismissed message stays in the listing of another shop's user. *)
Example dismissed_sms_still_listed :
  let m := {| sms_id := 1%N; sms_deviceId := Some 9%N; rawText := lit "hello";
              sender := lit "BANK"; receivedAt := 1000; parsedAmountCents := None;
              parsedVpa := None; parsedUtr := None; parseConfidence := Some 50;
              matchedRequestId := None; processedAt := None |} in
  let w := {| db := {| devices := []; paymentRequests := []; smsInbox := [m];
                       payments := []; matchHistory := []; auditLogs := [];
                       next_id := 2%N |};
              faults := [] |} in
  let w' := snd (post_sms_dismiss {| user_id := 7%N; user_shopId := Some 5%N |} 1%N 2000 w) in
  fst (get_sms_unidentified {| user_id := 8%N; user_shopId := Some 6%N |} w')
  = json (SmsList [set_processedAt (Some 2000) m]).
Proof. reflexivity. Qed.

(* ================================================================== *)
(** ** The candidate query *)

(** The rows behind a successful answer of the candidate query. *)
Lemma get_sms_candidates_body (user : AuthUser) (id : Id) (w : World) (cs : list Candidate) :
  body (fst (get_sms_candidates user id w)) = CandidateList cs ->
  exists sms,
    List.find (fun m => N.eqb (sms_id m) id) (smsInbox (db w)) = Some sms
    /\ cs = score_candidates sms (getPaymentRequests_rows (pending_filters user) (db w)).
Proof.
  unfold get_sms_candidates, try_catch, bind, getSmsInbox, getPaymentRequests,
    query, next_fault, ret.
  destruct w as [d [|[] [|[] fs]]]; simpl;
    destruct (List.find (fun m => N.eqb (sms_id m) id) (smsInbox d)) as [sms|];
    simpl; intros H; try discriminate; injection H as <-; eauto.
Qed.

Lemma score_candidates_In (sms : SmsInbox) (requests : list PaymentRequest) (c : Candidate) :
  In c (score_candidates sms requests)
  <-> In (cand_request c) requests
      /\ cand_score c = match_score sms (cand_request c)
      /\ 0 < cand_score c.
Proof.
  unfold score_candidates. rewrite sort_by_In, filter_In, in_map_iff. split.
  - intros [[r [<- Hr]] Hpos]. simpl in *. apply Z.ltb_lt in Hpos. auto.
  - intros [Hr [Hs Hpos]]. split.
    + exists (cand_request c). split; auto. destruct c; simpl in *. now subst.
    + now apply Z.ltb_lt.
Qed.

Lemma pending_rows_In (user : AuthUser) (d : Db) (r : PaymentRequest) :
  In r (getPaymentRequests_rows (pending_filters user) d)
  <-> In r (paymentRequests d)
      /\ pr_status r = Pending
      /\ (forall shop, user_shopId user = Some shop -> pr_shopId r = shop).
Proof.
  unfold getPaymentRequests_rows, pending_filters, request_conditions, status_cond;
    simpl.
  rewrite order_desc_In, filter_In, !andb_true_iff.
  destruct (user_shopId user) as [shop|]; simpl.
  - rewrite N.eqb_eq. split.
    + intros [Hin [[Hs _] Hst]]. repeat split; auto.
      * destruct (pr_status r); simpl in Hst; congruence.
      * intros ? [= <-]. exact Hs.
    + intros [Hin [Hst Hs]]. rewrite Hst. repeat split; auto.
  - split.
    + intros [Hin [_ Hst]]. repeat split; auto.
      * destruct (pr_status r); simpl in Hst; congruence.
      * discriminate.
    + intros [Hin [Hst _]]. rewrite Hst. repeat split; auto.
Qed.

Lemma match_score_cases (sms : SmsInbox) (r : PaymentRequest) :
  match parsedAmountCents sms with
  | None | Some 0 => match_score sms r = 0
  | Some a =>
      (amountCents r = a -> match_score sms r = 100)
      /\ (amountCents r <> a -> Z.abs (amountCents r - a) < 100 -> match_score sms r = 80)
      /\ (100 <= Z.abs (amountCents r - a) -> match_score sms r = 0)
  end.
Proof.
  unfold match_score, truthy_int, strict_eq, abs_diff.
  destruct (parsedAmountCents sms) as [[|a|a]|]; try reflexivity;
    cbn [negb Z.eqb andb].
  - destruct (Z.eqb_spec (amountCents r) (Z.pos a)) as [E|E];
      destruct (Z.ltb_spec (Z.abs (amountCents r - Z.pos a)) 100) as [L|L];
      repeat split; intros; try reflexivity; lia.
  - destruct (Z.eqb_spec (amountCents r) (Z.neg a)) as [E|E];
      destruct (Z.ltb_spec (Z.abs (amountCents r - Z.neg a)) 100) as [L|L];
      repeat split; intros; try reflexivity; lia.
Qed.

(** C4 (amended).  For a request of the candidate set and a message whose
    stored amount is not null and not zero: the request is returned with
    score 100 when its amount equals the message's, with score 80 when the
    amounts differ by less than 100 minor units (a difference of exactly 100
    is outside), and is not returned when they differ by 100 or more.  It is
    not returned either when the message's amount is null or zero. *)
Theorem candidate_scores :
  forall (sms : SmsInbox) (requests : list PaymentRequest) (r : PaymentRequest),
    In r requests ->
    let listed s :=
      In {| cand_request := r; cand_score := s |} (score_candidates sms requests) in
    match parsedAmountCents sms with
    | None | Some 0 => forall s, ~ listed s
    | Some a =>
        (amountCents r = a -> forall s, listed s <-> s = 100)
        /\ (amountCents r <> a -> Z.abs (amountCents r - a) < 100 ->
            forall s, listed s <-> s = 80)
        /\ (100 <= Z.abs (amountCents r - a) -> forall s, ~ listed s)
    end.
Proof.
  intros sms requests r Hr listed.
  assert (Hl : forall s, listed s <-> s = match_score sms r /\ 0 < s).
  { intros s. unfold listed. rewrite score_candidates_In. simpl. tauto. }
  pose proof (match_score_cases sms r) as Hc.
  destruct (parsedAmountCents sms) as [[|a|a]|].
  - intros s. rewrite Hl. lia.
  - destruct Hc as [H1 [H2 H3]]. split; [|split].
    + intros E s. rewrite Hl, (H1 E). lia.
    + intros E L s. rewrite Hl, (H2 E L). lia.
    + intros L s. rewrite Hl, (H3 L). lia.
  - destruct Hc as [H1 [H2 H3]]. split; [|split].
    + intros E s. rewrite Hl, (H1 E). lia.
    + intros E L s. rewrite Hl, (H2 E L). lia.
    + intros L s. rewrite Hl, (H3 L). lia.
  - intros s. rewrite Hl. lia.
Qed.

Lemma candidate_scores_witness :
  In (Example.request 10 50000 9000 100) [Example.request 10 50000 9000 100]
  /\ (forall s,
        In {| cand_request := Example.request 10 50000 9000 100; cand_score := s |}
          (score_candidates (Example.sms (Some 50000) None)
             [Example.request 10 50000 9000 100])
        <-> s = 100).
Proof.
  split.
  - left; reflexivity.
  - pose proof (candidate_scores (Example.sms (Some 50000) None)
                  [Example.request 10 50000 9000 100]
                  (Example.request 10 50000 9000 100) (or_introl eq_refl)) as H.
    destruct H as [H _]. apply H. reflexivity.
Defined.

(** C4, as stated, fails: a request 100 minor units away from the message's
    amount is within the stated tolerance, and the code gives it score 0 and
    leaves it out. *)
Lemma candidate_scores_counterexample :
  let m := Example.sms (Some 50000) None in
  let r := Example.request 12 50100 9000 300 in
  Z.abs (amountCents r - 50000) <= 100
  /\ match_score m r = 0
  /\ fst (get_sms_candidates Example.user 100%N (Example.world [r] [m]))
     = json (CandidateList []).
Proof. cbv zeta. split; [|split]; [vm_compute; discriminate | reflexivity | reflexivity]. Qed.

(** C5 (amended).  The candidates of a query are sorted by descending score,
    and candidates with equal scores come in descending order of their
    request's creation time (newest first), the order in which
    [getPaymentRequests] returns them. *)
Theorem candidates_sorted :
  forall (user : AuthUser) (id : Id) (w : World) (cs : list Candidate),
    body (fst (get_sms_candidates user id w)) = CandidateList cs ->
    StronglySorted candidate_order cs.
Proof.
  intros user id w cs H.
  apply get_sms_candidates_body in H. destruct H as [m [_ ->]].
  unfold score_candidates.
  apply (sort_by_lex cand_score (fun c => pr_createdAt (cand_request c))).
  apply StronglySorted_filter.
  apply StronglySorted_map with (R := fun a b : Candidate =>
    pr_createdAt (cand_request a) >= pr_createdAt (cand_request b)).
  simpl. unfold getPaymentRequests_rows. simpl.
  apply order_desc_sorted.
Qed.

Lemma candidates_sorted_witness :
  StronglySorted candidate_order
    [ {| cand_request := Example.request 11 50000 9000 200; cand_score := 100 |};
      {| cand_request := Example.request 10 50000 9000 100; cand_score := 100 |};
      {| cand_request := Example.request 13 50050 9000 400; cand_score := 80 |} ].
Proof.
  apply (candidates_sorted Example.user 100%N
           (Example.world [Example.request 10 50000 9000 100;
                           Example.request 13 50050 9000 400;
                           Example.request 11 50000 9000 200]
              [Example.sms (Some 50000) None])).
  reflexivity.
Defined.

(** C5, as stated, fails: two requests of the same amount, created at times
    100 and 200, both score 100, and the one created later is returned
    first. *)
Lemma candidates_sorted_counterexample :
  let older := Example.request 10 50000 9000 100 in
  let newer := Example.request 11 50000 9000 200 in
  let cs := [ {| cand_request := newer; cand_score := 100 |};
              {| cand_request := older; cand_score := 100 |} ] in
  fst (get_sms_candidates Example.user 100%N
         (Example.world [older; newer] [Example.sms (Some 50000) None]))
  = json (CandidateList cs)
  /\ ~ StronglySorted candidate_order_spec cs.
Proof.
  cbv zeta. split; [reflexivity|].
  intros H. apply StronglySorted_inv in H. destruct H as [_ H].
  apply Forall_inv in H. unfold candidate_order_spec in H. simpl in H. lia.
Qed.

(** C8 (amended).  The candidates of a query are exactly the requests of
    the table that are in the pending status, belong to the user's shop when
    the user has one, and score above 0 against the message; the expiry time
    of a request is not consulted. *)
Theorem candidates_are_pending :
  forall (user : AuthUser) (id : Id) (w : World) (cs : list Candidate),
    body (fst (get_sms_candidates user id w)) = CandidateList cs ->
    exists m,
      List.find (fun x => N.eqb (sms_id x) id) (smsInbox (db w)) = Some m
      /\ forall c,
           In c cs
           <-> In (cand_request c) (paymentRequests (db w))
               /\ pr_status (cand_request c) = Pending
               /\ (forall shop, user_shopId user = Some shop ->
                                pr_shopId (cand_request c) = shop)
               /\ cand_score c = match_score m (cand_request c)
               /\ 0 < cand_score c.
Proof.
  intros user id w cs H.
  apply get_sms_candidates_body in H. destruct H as [m [Hm ->]].
  exists m. split; [exact Hm|]. intros c.
  rewrite score_candidates_In, pending_rows_In. tauto.
Qed.

Lemma candidates_are_pending_witness :
  exists m,
    List.find (fun x => N.eqb (sms_id x) 100%N)
      (smsInbox (db (Example.world [Example.request 10 50000 9000 100]
                       [Example.sms (Some 50000) None]))) = Some m
    /\ forall c,
         In c [ {| cand_request := Example.request 10 50000 9000 100; cand_score := 100 |} ]
         <-> In (cand_request c)
               (paymentRequests (db (Example.world [Example.request 10 50000 9000 100]
                                       [Example.sms (Some 50000) None])))
             /\ pr_status (cand_request c) = Pending
             /\ (forall shop, user_shopId Example.user = Some shop ->
                              pr_shopId (cand_request c) = shop)
             /\ cand_score c = match_score m (cand_request c)
             /\ 0 < cand_score c.
Proof.
  apply (candidates_are_pending Example.user 100%N
           (Example.world [Example.request 10 50000 9000 100]
              [Example.sms (Some 50000) None])).
  reflexivity.
Defined.

(** C8, as stated, fails: a pending request whose expiry time (10) has
    passed when the message arrives (1000) and when the query is made (2000)
    is returned, with score 100. *)
Lemma candidates_are_pending_counterexample :
  let r := Example.request 12 50000 10 300 in
  isExpired 2000 r = true
  /\ fst (get_sms_candidates Example.user 100%N
            (Example.world [r] [Example.sms (Some 50000) None]))
     = json (CandidateList [ {| cand_request := r; cand_score := 100 |} ]).
Proof. cbv zeta. split; reflexivity. Qed.

(* ================================================================== *)
(** ** The amount pattern *)

Lemma span_app (p : N -> bool) (s : js_string) :
  fst (span p s) ++ snd (span p s) = s.
Proof.
  induction s as [|c t IH]; simpl; [reflexivity|].
  destruct (p c); [|reflexivity].
  destruct (span p t) as [a b]; simpl in *. now rewrite IH.
Qed.

Lemma span_Forall (p : N -> bool) (s : js_string) :
  Forall (fun c => p c = true) (fst (span p s)).
Proof.
  induction s as [|c t IH]; simpl; [constructor|].
  destruct (p c) eqn:E; [|constructor].
  destruct (span p t) as [a b]; simpl in *. now constructor.
Qed.

Lemma span_rest (p : N -> bool) (s : js_string) :
  match snd (span p s) with
  | c :: _ => p c = false
  | [] => True
  end.
Proof.
  induction s as [|c t IH]; simpl; [exact I|].
  destruct (p c) eqn:E; [|exact E].
  destruct (span p t) as [a b]; simpl in *. exact IH.
Qed.

(** The longest run, when nothing follows it that satisfies [p]. *)
Lemma span_unique (p : N -> bool) (a b : js_string) :
  Forall (fun c => p c = true) a ->
  match b with c :: _ => p c = false | [] => True end ->
  span p (a ++ b) = (a, b).
Proof.
  intros Ha Hb. induction Ha as [|c a Hc Ha IH]; simpl.
  - destruct b as [|c b]; [reflexivity|]. simpl. now rewrite Hb.
  - now rewrite Hc, IH.
Qed.


Lemma space_not_literal (c : N) : is_space c = true -> digit_or_comma c = false.
Proof.
  unfold is_space, digit_or_comma, is_digit, cu. simpl N_of_ascii.
  intros H. destruct ((48 <=? c)%N && (c <=? 57)%N || (c =? 44)%N) eqn:E; [|reflexivity].
  assert (R : (44 <= c <= 57)%N).
  { apply orb_true_iff in E. destruct E as [E|E].
    - apply andb_true_iff in E. destruct E as [E1 E2].
      apply N.leb_le in E1, E2. lia.
    - apply N.eqb_eq in E. lia. }
  repeat match type of H with
         | context [(?a <=? ?b)%N] => destruct (N.leb_spec a b); try lia
         | context [(?a =? ?b)%N] => destruct (N.eqb_spec a b); try lia
         end.
Qed.

Lemma dot_not_literal (c : N) : chr "." c = true -> digit_or_comma c = false.
Proof.
  unfold chr, cu. simpl N_of_ascii. intros H. apply N.eqb_eq in H. subst c. reflexivity.
Qed.

Lemma dot_not_space (c : N) : chr "." c = true -> is_space c = false.
Proof.
  unfold chr, cu. simpl N_of_ascii. intros H. apply N.eqb_eq in H. subst c. reflexivity.
Qed.

Lemma literal_not_dot (c : N) : digit_or_comma c = true -> chr "." c = false.
Proof.
  intros H. destruct (chr "." c) eqn:E; [|reflexivity].
  apply dot_not_literal in E. congruence.
Qed.

Lemma space_not_dot (c : N) : is_space c = true -> chr "." c = false.
Proof.
  intros H. destruct (chr "." c) eqn:E; [|reflexivity].
  apply dot_not_space in E. congruence.
Qed.

Lemma firstn_length_app {A} (a b : list A) :
  firstn (List.length (a ++ b) - List.length b) (a ++ b) = a.
Proof.
  rewrite length_app, Nat.add_sub. rewrite firstn_app, Nat.sub_diag, firstn_all.
  simpl. apply app_nil_r.
Qed.






(** [text.match(r)] finds the leftmost start position with a match. *)
Lemma exec_leftmost (r : regex) (s : js_string) :
  match exec r s with
  | Some g =>
      exists pre suf,
        s = pre ++ suf /\ match_here r suf = Some g
        /\ forall pre' suf', s = pre' ++ suf' ->
             (List.length pre' < List.length pre)%nat -> match_here r suf' = None
  | None => forall pre suf, s = pre ++ suf -> match_here r suf = None
  end.
Proof.
  induction s as [|c t IH]; simpl.
  - destruct (match_here r []) as [g|] eqn:E.
    + exists [], []. repeat split; auto. simpl. intros; lia.
    + intros pre suf H. symmetry in H. apply app_eq_nil in H. now destruct H as [_ ->].
  - destruct (match_here r (c :: t)) as [g|] eqn:E.
    + exists [], (c :: t). repeat split; auto. simpl. intros; lia.
    + destruct (exec r t) as [g|].
      * destruct IH as [pre [suf [-> [Hm Hfirst]]]].
        exists (c :: pre), suf. repeat split; auto.
        intros pre' suf' H L. destruct pre' as [|c' pre'].
        -- simpl in H. now subst suf'.
        -- simpl in H. injection H as -> H. apply (Hfirst pre' suf' H). simpl in L. lia.
      * intros pre suf H. destruct pre as [|c' pre].
        -- simpl in H. now subst suf.
        -- simpl in H. injection H as -> H. now apply (IH pre suf).
Qed.

Lemma marker_letters (c : N) :
  (chr_i "R" c = true <-> c = cu "R" \/ c = cu "r")
  /\ (chr_i "s" c = true <-> c = cu "S" \/ c = cu "s").
Proof.
  unfold chr_i, cu. simpl. rewrite !orb_true_iff, !N.eqb_eq. intuition.
Qed.

Lemma two_decimals_shape (s : js_string) :
  two_decimals s = true ->
  exists d1 d2 rest,
    s = cu "." :: d1 :: d2 :: rest /\ is_digit d1 = true /\ is_digit d2 = true.
Proof.
  destruct s as [|dot [|d1 [|d2 rest]]]; simpl; try discriminate.
  rewrite !andb_true_iff. intros [[H0 H1] H2].
  unfold chr in H0. apply N.eqb_eq in H0. subst dot. eauto 6.
Qed.

Lemma amount_here_token (s ints frac : js_string) :
  amount_here s = Some (ints, frac) <-> amount_token s ints frac.
Proof.
  split.
  - destruct s as [|r [|c s1]]; simpl; try discriminate.
    destruct (chr_i "R" r) eqn:Er; [|discriminate].
    destruct (chr_i "s" c) eqn:Ec; [|discriminate]. simpl.
    assert (Hdot : exists dot, (dot = [] \/ dot = [cu "."]) /\ s1 = dot ++ skip_dot s1).
    { destruct s1 as [|c1 t1]; simpl; [exists []; auto|].
      destruct (chr "." c1) eqn:D.
      - unfold chr in D. apply N.eqb_eq in D. subst c1. exists [cu "."]. auto.
      - exists []. auto. }
    destruct Hdot as [dot [Hdot Hs1]].
    pose proof (span_app is_space (skip_dot s1)) as Hws.
    pose proof (span_Forall is_space (skip_dot s1)) as Hsp.
    destruct (span is_space (skip_dot s1)) as [ws s3]. simpl fst in *; simpl snd in *.
    unfold amount_literal.
    pose proof (span_app digit_or_comma s3) as Hi.
    pose proof (span_Forall digit_or_comma s3) as Hd.
    pose proof (span_rest digit_or_comma s3) as Hr.
    destruct (span digit_or_comma s3) as [run rest0]. simpl fst in *; simpl snd in *.
    destruct run as [|x run]; [discriminate|].
    intros H. injection H as <- <-.
    rewrite Hs1, <- Hws, <- Hi.
    destruct (two_decimals rest0) eqn:T.
    + destruct (two_decimals_shape _ T) as [d1 [d2 [rest [-> [H1 H2]]]]].
      simpl firstn.
      apply (AmountToken r c dot ws (x :: run) [cu "."; d1; d2] rest); auto.
      * discriminate.
      * now constructor.
    + apply (AmountToken r c dot ws (x :: run) [] rest0); auto.
      * discriminate.
      * now constructor.
  - intros H. destruct H as [r c dot ws ints frac rest Hr Hc Hdot Hws Hne Hints Hfrac Hmax].
    simpl. rewrite Hr, Hc. simpl.
    assert (Hhead : match ints ++ frac ++ rest with
                    | x :: _ => digit_or_comma x = true
                    | [] => False
                    end).
    { destruct ints as [|x ints]; [congruence|]. simpl. now apply Forall_inv in Hints. }
    assert (Hskip : skip_dot (dot ++ ws ++ ints ++ frac ++ rest) = ws ++ ints ++ frac ++ rest).
    { destruct Hdot as [-> | ->]; [|reflexivity]. simpl.
      destruct ws as [|y ws].
      - simpl in *. destruct (ints ++ frac ++ rest) as [|x l]; [tauto|].
        simpl. now rewrite (literal_not_dot _ Hhead).
      - apply Forall_inv in Hws. simpl. now rewrite (space_not_dot _ Hws). }
    rewrite Hskip. rewrite (span_unique is_space ws (ints ++ frac ++ rest) Hws).
    2:{ destruct (ints ++ frac ++ rest) as [|x l]; [exact I|].
        destruct (is_space x) eqn:S; [|reflexivity].
        apply space_not_literal in S. congruence. }
    simpl snd. unfold amount_literal.
    rewrite (span_unique digit_or_comma ints (frac ++ rest) Hints Hmax).
    destruct ints as [|x ints]; [congruence|].
    destruct Hfrac as [d1 d2 rest H1 H2 | rest T].
    + simpl. now rewrite H1, H2.
    + simpl app. now rewrite T.
Qed.

(** *** From the literal to minor units *)







Lemma amount_token_unique (s i1 f1 i2 f2 : js_string) :
  amount_token s i1 f1 -> amount_token s i2 f2 -> i1 = i2 /\ f1 = f2.
Proof.
  intros H1 H2. apply amount_here_token in H1, H2.
  rewrite H1 in H2. now injection H2.
Qed.




(** A run of commas is a token too: the amount is then NaN, not null. *)
Example amount_of_commas : parsedAmount (lit "Rs ,") = Some JNaN.
Proof. reflexivity. Qed.

Example amount_with_separators :
  parsedAmount (lit "credited with rs.1,23,499.50 on 01-02") = Some (JNum (inject_Z 12349950)).
Proof. reflexivity. Qed.

(* ================================================================== *)
(** ** Parse confidence *)

Lemma digits_val_nonneg (ds : js_string) :
  Forall (fun c => is_digit c = true) ds -> 0 <= digits_val ds.
Proof.
  intros Hds. unfold digits_val.
  assert (G : forall a, 0 <= a -> 0 <= fold_left (fun acc c => 10 * acc + digit_val c) ds a).
  { induction Hds as [|c ds Hc Hds IH]; intros a Ha; cbn [fold_left]; [exact Ha|].
    apply IH. unfold is_digit in Hc. apply andb_true_iff in Hc. destruct Hc as [Hc _].
    apply N.leb_le in Hc. unfold digit_val. lia. }
  apply G. lia.
Qed.

Lemma parseFloat_nonneg (s : js_string) :
  match parseFloat s with
  | JNaN => True
  | JNum q => (0 <= q)%Q
  end.
Proof.
  unfold parseFloat.
  pose proof (span_Forall is_digit s) as Hi.
  destruct (span is_digit s) as [ip r]. simpl fst in Hi.
  set (fp := match r with
             | [] => []
             | c :: t => if N.eqb c (cu ".") then fst (span is_digit t) else []
             end).
  assert (Hf : Forall (fun c => is_digit c = true) fp).
  { unfold fp. destruct r as [|c t]; [constructor|].
    destruct (N.eqb c (cu ".")); [apply span_Forall|constructor]. }
  assert (Q : (0 <= inject_Z (digits_val ip)
                    + (digits_val fp # Z.to_pos (10 ^ Z.of_nat (List.length fp))))%Q).
  { apply digits_val_nonneg in Hi, Hf.
    generalize (Z.to_pos (10 ^ Z.of_nat (List.length fp))). intros e.
    unfold Qle, Qplus, inject_Z. cbn [Qnum Qden]. nia. }
  destruct ip, fp; auto.
Qed.

(** What the webhook computes as the amount: null, NaN, or a whole number
    of minor units that is not negative. *)
Lemma parsedAmount_shape (text : js_string) :
  parsedAmount text = None
  \/ parsedAmount text = Some JNaN
  \/ exists z, 0 <= z /\ parsedAmount text = Some (JNum (inject_Z z)).
Proof.
  unfold parsedAmount. destruct (amountMatch text) as [g1|]; [|auto].
  right. pose proof (parseFloat_nonneg (remove_all (cu ",") g1)) as H.
  destruct (parseFloat (remove_all (cu ",") g1)) as [|q]; [auto|].
  right. cbn [Math_round jmul]. eexists. split; [|reflexivity].
  rewrite <- (Qfloor_Z 0). apply Qfloor_resp_le.
  assert (H1 : (0 <= q * inject_Z 100)%Q).
  { apply Qmult_le_0_compat; [exact H|]. unfold Qle, inject_Z; simpl; lia. }
  assert (H2 : (0 <= 1 # 2)%Q) by (unfold Qle; simpl; lia).
  pose proof (Qplus_le_compat _ _ _ _ H1 H2) as H3.
  rewrite Qplus_0_l in H3. exact H3.
Qed.

Lemma truthy_whole (z : Z) : truthy_num (Some (JNum (inject_Z z))) = negb (z =? 0).
Proof.
  unfold truthy_num, Qeq_bool, inject_Z. cbn [Qnum Qden]. f_equal.
  rewrite Z.mul_1_r. reflexivity.
Qed.

(** C6 (amended).  For every text the parse confidence is 80 when an amount
    was extracted and is a number other than zero, and 50 otherwise (no
    amount, NaN, or zero); it depends on the amount alone, so the reference
    has no part in it: with and without a reference the confidence is the
    same, and without an amount the confidence is 50, not below it. *)
Theorem confidence_levels :
  forall text : js_string,
    let p := parse text in
    (sig_confidence p = 80 \/ sig_confidence p = 50)
    /\ (sig_confidence p = 80
        <-> exists z, 0 < z /\ sig_amount p = Some (JNum (inject_Z z)))
    /\ (sig_confidence p = 50
        <-> sig_amount p = None \/ sig_amount p = Some JNaN
            \/ sig_amount p = Some (JNum (inject_Z 0)))
    /\ (forall other : js_string,
          sig_amount (parse other) = sig_amount p ->
          sig_confidence (parse other) = sig_confidence p).
Proof.
  intros text p. unfold p, parse. cbn [sig_confidence sig_amount].
  unfold Parser.parseConfidence.
  destruct (parsedAmount_shape text) as [H | [H | [z [Hz H]]]]; rewrite H.
  - cbn [truthy_num]. repeat split; auto; try discriminate.
    + intros [z [_ Hq]]. discriminate.
    + intros other ->. reflexivity.
  - cbn [truthy_num]. repeat split; auto; try discriminate.
    + intros [z [_ Hq]]. discriminate.
    + intros other ->. reflexivity.
  - rewrite truthy_whole. destruct (Z.eqb_spec z 0) as [->|Hnz]; cbn [negb].
    + repeat split; auto; try discriminate.
      * intros [z [Hpos Hq]]. injection Hq as Hq. lia.
      * intros other ->. now rewrite truthy_whole.
    + repeat split; auto; try discriminate.
      * intros _. exists z. split; [lia|reflexivity].
      * intros [E | [E | E]]; try discriminate. injection E as E. lia.
      * intros other ->. rewrite truthy_whole.
        destruct (Z.eqb_spec z 0); [lia|reflexivity].
Qed.

(** C6, as stated, fails: a text with an amount and no reference gets
    confidence 80, outside 50..79 and not below the confidence of a text
    with both; a text with neither gets 50, which is not below 50. *)
Lemma confidence_levels_counterexample :
  let both := parse (lit "Rs. 500.00 credited. UTR: ABC123XYZ") in
  let amount_only := parse (lit "You received Rs 499.50") in
  let neither := parse (lit "hello") in
  (sig_amount both <> None /\ sig_utr both <> None)
  /\ (sig_amount amount_only <> None /\ sig_utr amount_only = None)
  /\ (sig_amount neither = None /\ sig_utr neither = None)
  /\ ~ (50 <= sig_confidence amount_only <= 79)
  /\ ~ (sig_confidence both > sig_confidence amount_only)
  /\ ~ (sig_confidence neither < 50).
Proof.
  cbv zeta.
  assert (B : parse (lit "Rs. 500.00 credited. UTR: ABC123XYZ")
              = {| sig_amount := Some (JNum (inject_Z 50000)); sig_vpa := None;
                   sig_utr := Some (lit "ABC123XYZ"); sig_confidence := 80 |})
    by reflexivity.
  assert (A : parse (lit "You received Rs 499.50")
              = {| sig_amount := Some (JNum (inject_Z 49950)); sig_vpa := None;
                   sig_utr := None; sig_confidence := 80 |})
    by reflexivity.
  assert (N0 : parse (lit "hello")
               = {| sig_amount := None; sig_vpa := None;
                    sig_utr := None; sig_confidence := 50 |})
    by reflexivity.
  rewrite B, A, N0. cbn [sig_amount sig_utr sig_confidence].
  repeat split; try discriminate; try reflexivity; lia.
Qed.

(* ================================================================== *)
(** ** The webhook *)


(** *** Running one storage call

    One storage call followed by the rest of the handler: the call is
    rejected, or the rest runs on its result. *)

Lemma bind_query {A B} (q : Db -> A) (f : A -> M B) (w : World) :
  exists fs,
    bind (query q) f w = f (q (db w)) {| db := db w; faults := fs |}
    \/ bind (query q) f w = (Throw, {| db := db w; faults := fs |}).
Proof.
  unfold bind, query, next_fault. destruct w as [d [|[] fs]]; simpl; eauto.
Qed.

Lemma bind_statement {A B} (st : Db -> option (A * Db)) (f : A -> M B) (w : World) :
  exists fs,
    (exists a d, st (db w) = Some (a, d)
                 /\ bind (statement st) f w = f a {| db := d; faults := fs |})
    \/ bind (statement st) f w = (Throw, {| db := db w; faults := fs |}).
Proof.
  unfold bind, statement, next_fault.
  destruct w as [d [|[] fs]]; simpl; destruct (st d) as [[a d']|]; eauto 6.
Qed.

Lemma bind_logAudit {B} (u : Id) (a e : string) (i : Id) (f : unit -> M B) (w : World) :
  exists fs d,
    (d = db w \/ d = add_auditLog {| al_userId := Some u; action := a;
                                     entityType := e; entityId := Some i |} (db w))
    /\ bind (logAudit u a e i) f w = f tt {| db := d; faults := fs |}.
Proof.
  unfold bind, logAudit, createAuditLog, statement, next_fault.
  destruct w as [d [|[] fs]]; simpl; eauto 6.
Qed.

Lemma bind_query_ok {A B} (q : Db -> A) (f : A -> M B) (w : World) :
  no_faults w -> bind (query q) f w = f (q (db w)) w.
Proof. intros H. unfold bind. now rewrite query_no_faults. Qed.

Lemma bind_statement_ok {A B} (st : Db -> option (A * Db)) (f : A -> M B) (w : World) :
  no_faults w ->
  bind (statement st) f w
  = match st (db w) with
    | Some (a, d) => f a {| db := d; faults := [] |}
    | None => (Throw, w)
    end.
Proof.
  intros H. unfold bind. rewrite statement_no_faults by exact H.
  destruct (st (db w)) as [[a d]|]; reflexivity.
Qed.

Ltac call_query :=
  match goal with
  | |- context [bind (query ?q) ?f ?w] =>
      let E := fresh "E" in
      destruct (bind_query q f w) as [? [E|E]]; rewrite E; clear E; cbv beta
  end.

Ltac call_statement a d H :=
  match goal with
  | |- context [bind (statement ?st) ?f ?w] =>
      let E := fresh "E" in
      destruct (bind_statement st f w) as [? [[a [d [H E]]]|E]]; rewrite E; clear E; cbv beta
  end.

Lemma str_eqb_eq (a b : js_string) : str_eqb a b = true <-> a = b.
Proof.
  unfold str_eqb. destruct (list_eq_dec N.eq_dec a b); split; congruence.
Qed.

Lemma gate_condition (hashToken : js_string -> js_string) (device : Device) (token : js_string) :
  negb (str_eqb (webhookTokenHash device) (hashToken token)) || is_some (revokedAt device) = false
  <-> webhookTokenHash device = hashToken token /\ revokedAt device = None.
Proof.
  rewrite orb_false_iff, negb_false_iff, str_eqb_eq.
  unfold is_some, is_null. destruct (revokedAt device); simpl; intuition congruence.
Qed.

Lemma webhook_outcome (hashToken : js_string -> js_string) (req : WebhookRequest)
    (now : Date) (w : World) :
  let r := post_sms_webhook hashToken req now w in
  (db (snd r) = db w /\ status (fst r) <> 200)
  \/ exists data device,
       gate_passes hashToken req (db w) data device
       /\ ((db (snd r) = seen device now (db w) /\ status (fst r) = 500)
           \/ exists m,
                createSmsInbox_row (insert_of_signal device data) (seen device now (db w)) = Some m
                /\ db (snd r) = add_smsInbox m (seen device now (db w))
                /\ fst r = json (SmsReceived (sms_id m))).
Proof.
  intros r. unfold r, post_sms_webhook, try_catch, gate_passes.
  destruct (presented_token req) as [token|]; [|left; split; [reflexivity|discriminate]].
  destruct (wh_body req) as [data|]; [|left; split; [reflexivity|discriminate]].
  unfold getDeviceByUuid, updateDevice, createSmsInbox.
  call_query; [|left; split; [reflexivity|discriminate]].
  destruct (List.find _ (devices (db w))) as [device|] eqn:F;
    [|left; split; [reflexivity|discriminate]].
  destruct (negb _ || _) eqn:G; [left; split; [reflexivity|discriminate]|].
  apply gate_condition in G. destruct G as [G1 G2].
  call_statement u d1 H1; [|left; split; [reflexivity|discriminate]].
  injection H1 as _ <-. cbn [db].
  right. exists data, device. split; [eauto 10|].
  call_statement m d2 H2.
  - right. cbn [db] in H2. fold (seen device now (db w)) in H2 |- *.
    destruct (createSmsInbox_row _ _) as [m'|] eqn:C; [|discriminate].
    injection H2 as -> <-. exists m. auto.
  - left. split; reflexivity.
Qed.

Lemma webhook_no_faults (hashToken : js_string -> js_string) (req : WebhookRequest)
    (data : SmsWebhookInput) (now : Date) (w : World) :
  wh_body req = Some data -> no_faults w ->
  post_sms_webhook hashToken req now w
  = match presented_token req with
    | None => (fail 401 "Webhook token required", w)
    | Some token =>
        match List.find (fun x => str_eqb (deviceUuid x) (deviceId data)) (devices (db w)) with
        | None => (fail 403 "Invalid or revoked device", w)
        | Some device =>
            if negb (str_eqb (webhookTokenHash device) (hashToken token))
               || is_some (revokedAt device)
            then (fail 403 "Invalid or revoked device", w)
            else
              match createSmsInbox_row (insert_of_signal device data)
                      (seen device now (db w)) with
              | Some m => (json (SmsReceived (sms_id m)),
                           {| db := add_smsInbox m (seen device now (db w)); faults := [] |})
              | None => (fail 500 "Failed to process SMS",
                         {| db := seen device now (db w); faults := [] |})
              end
        end
    end.
Proof.
  intros Hb Hw. unfold post_sms_webhook, try_catch. rewrite Hb.
  destruct (presented_token req) as [token|]; [|reflexivity].
  unfold getDeviceByUuid, updateDevice, createSmsInbox.
  rewrite bind_query_ok by exact Hw.
  destruct (List.find _ (devices (db w))) as [device|]; [|reflexivity].
  destruct (negb _ || _); [reflexivity|].
  rewrite bind_statement_ok by exact Hw.
  rewrite bind_statement_ok by reflexivity. cbn [db].
  fold (seen device now (db w)).
  destruct (createSmsInbox_row _ _) as [m|]; reflexivity.
Qed.

Lemma createSmsInbox_row_new (i : InsertSmsInbox) (d : Db) (m : SmsInbox) :
  createSmsInbox_row i d = Some m ->
  matchedRequestId m = ins_matchedRequestId i /\ processedAt m = None.
Proof.
  unfold createSmsInbox_row.
  destruct (ins_receivedAt i); [|discriminate].
  destruct (amount_column _); [|discriminate].
  destruct (varchar_opt _ _); [|discriminate].
  intros [= <-]. split; reflexivity.
Qed.


(** C1 (amended).  The webhook performs no matching, whatever the candidates
    of the message are: it records no settlement payment, changes no payment
    request and writes no match record; a message it accepts is stored with a
    null matched request, unprocessed, and so appears in the unidentified
    (manual review) listing. *)
Theorem webhook_never_matches :
  forall (hashToken : js_string -> js_string) (req : WebhookRequest)
         (now : Date) (w : World),
    let r := post_sms_webhook hashToken req now w in
    payments (db (snd r)) = payments (db w)
    /\ paymentRequests (db (snd r)) = paymentRequests (db w)
    /\ matchHistory (db (snd r)) = matchHistory (db w)
    /\ (status (fst r) = 200 ->
        exists m,
          smsInbox (db (snd r)) = smsInbox (db w) ++ [m]
          /\ fst r = json (SmsReceived (sms_id m))
          /\ matchedRequestId m = None /\ processedAt m = None
          /\ forall shop, In m (getUnidentifiedSms_rows shop (db (snd r)))).
Proof.
  intros hashToken req now w r.
  destruct (webhook_outcome hashToken req now w) as [[Hdb Hst] | [data [device [_ H]]]];
    fold r in Hdb, Hst || fold r in H.
  - rewrite Hdb. repeat split; auto. intros E. contradiction.
  - destruct H as [[Hdb Hst] | [m [Hm [Hdb Hr]]]]; rewrite Hdb.
    + repeat split; auto. intros E. rewrite Hst in E. discriminate.
    + repeat split; auto. intros _. exists m.
      apply createSmsInbox_row_new in Hm. destruct Hm as [Hm1 Hm2].
      cbn [insert_of_signal ins_matchedRequestId] in Hm1.
      repeat split; auto.
      intros shop. unfold getUnidentifiedSms_rows. apply order_desc_In.
      apply filter_In. split.
      * cbn [smsInbox add_smsInbox]. apply in_or_app. right. now left.
      * now rewrite Hm1.
Qed.

(** C1, as stated, fails: the message has a single candidate, with score
    100, and the webhook leaves the request pending, with no payment and no
    match record. *)
Lemma webhook_never_matches_counterexample :
  let r := post_sms_webhook Example.hash WebhookExample.request 2000 WebhookExample.before in
  fst r = json (SmsReceived 200%N)
  /\ fst (get_sms_candidates Example.user 200%N (snd r))
     = json (CandidateList [ {| cand_request := Example.request 10 50000 9000 100;
                                cand_score := 100 |} ])
  /\ payments (db (snd r)) = []
  /\ matchHistory (db (snd r)) = []
  /\ List.map pr_status (paymentRequests (db (snd r))) = [Pending]
  /\ List.map matchedRequestId (smsInbox (db (snd r))) = [None].
Proof. cbv zeta. repeat split; reflexivity. Qed.



(** A revoked device, a wrong token and an unknown device are turned away
    with status 403, a missing token with 401; nothing is written. *)
Example webhook_rejections :
  let revoked := {| dev_id := 1%N; deviceUuid := lit "device-1"; dev_userId := 7%N;
                    webhookTokenHash := Example.hash (lit "secret");
                    lastSeenAt := None; revokedAt := Some 500 |} in
  let w := {| db := with_devices [revoked] (db WebhookExample.before); faults := [] |} in
  let wrong := {| x_webhook_token := Some (lit "guess"); authorization := None;
                  wh_body := Some WebhookExample.data |} in
  let missing := {| x_webhook_token := None; authorization := None;
                    wh_body := Some WebhookExample.data |} in
  post_sms_webhook Example.hash WebhookExample.request 2000 w
    = (fail 403 "Invalid or revoked device", w)
  /\ post_sms_webhook Example.hash wrong 2000 WebhookExample.before
     = (fail 403 "Invalid or revoked device", WebhookExample.before)
  /\ post_sms_webhook Example.hash missing 2000 WebhookExample.before
     = (fail 401 "Webhook token required", WebhookExample.before).
Proof. cbv zeta. repeat split; reflexivity. Qed.

(* ================================================================== *)
(** ** Applying a match *)

Lemma bind_query_step {A B} (q : Db -> A) (f : A -> M B) (w : World) :
  bind (query q) f w
  = if hd false (faults w) then (Throw, rest_of (db w) w)
    else f (q (db w)) (rest_of (db w) w).
Proof.
  unfold bind, query, next_fault, rest_of. destruct w as [d [|[] fs]]; reflexivity.
Qed.

Lemma bind_statement_step {A B} (st : Db -> option (A * Db)) (f : A -> M B) (w : World) :
  bind (statement st) f w
  = if hd false (faults w) then (Throw, rest_of (db w) w)
    else match st (db w) with
         | Some (a, d) => f a (rest_of d w)
         | None => (Throw, rest_of (db w) w)
         end.
Proof.
  unfold bind, statement, next_fault, rest_of.
  destruct w as [d [|[] fs]]; cbn [hd tl db faults]; destruct (st d) as [[a d']|]; reflexivity.
Qed.

Lemma bind_logAudit_step {B} (u : Id) (a e : string) (i : Id) (f : unit -> M B) (w : World) :
  bind (logAudit u a e i) f w
  = f tt (rest_of (if hd false (faults w) then db w
                   else add_auditLog {| al_userId := Some u; action := a;
                                        entityType := e; entityId := Some i |} (db w)) w).
Proof.
  unfold bind, logAudit, createAuditLog, statement, next_fault, rest_of.
  destruct w as [d [|[] fs]]; reflexivity.
Qed.

Ltac run_call H :=
  first [ rewrite bind_query_step in H
        | rewrite bind_statement_step in H
        | rewrite bind_logAudit_step in H ];
  unfold rest_of in H; cbn [db faults hd tl] in H.

Ltac next_fault_case H :=
  match type of H with
  | context [hd false ?fs] => is_var fs; destruct fs as [|[] fs]; cbn [hd tl] in H
  end.

Lemma manual_match_writes :
  forall (user : AuthUser) (id prid : Id) (note' : option js_string)
         (nonce : js_string) (now : Date) (w : World) (m : SmsInbox)
         (q : PaymentRequest) (p : Payment),
    List.find (fun x => N.eqb (sms_id x) id) (smsInbox (db w)) = Some m ->
    List.find (fun x => N.eqb (pr_id x) prid) (paymentRequests (db w)) = Some q ->
    createPayment_row (manual_payment user m q prid note' nonce now) (db w) = Some p ->
    let d' := db (snd (post_sms_manual_match user id prid note' nonce now w)) in
    let k := settlement_writes 3 (faults w) in
    payments d' = payments (db w) ++ (if Nat.leb 1 k then [p] else [])
    /\ paymentRequests d'
       = (if Nat.leb 2 k then paymentRequests (settled prid now (db w))
          else paymentRequests (db w))
    /\ matchHistory d'
       = matchHistory (db w)
         ++ (if Nat.leb 3 k
             then [createMatchHistory_row (manual_history user id prid note')
                     (add_payment p (db w))]
             else []).
Proof.
  intros user id prid note' nonce now w m q p Hm Hq Hp d' k.
  remember (post_sms_manual_match user id prid note' nonce now w) as R eqn:HR.
  unfold post_sms_manual_match, try_catch, getSmsInbox, getPaymentRequest,
    updateSmsInbox, createPayment, updatePaymentRequest, createMatchHistory in HR.
  unfold d', k. clear d' k.
  destruct w as [d fs]. cbn [db faults] in *.
  assert (Hp' : createPayment_row (manual_payment user m q prid note' nonce now)
                  (with_smsInbox
                     (update_where (fun m0 => N.eqb (sms_id m0) id)
                        (fun m0 => set_processedAt (Some now)
                                     (set_matchedRequestId (Some prid) m0))
                        (smsInbox d)) d) = Some p) by exact Hp.
  repeat first [ rewrite Hm in HR | rewrite Hq in HR | rewrite Hp' in HR
               | run_call HR | next_fault_case HR ].
  all: subst R; unfold settlement_writes; cbn; try (destruct (first_fault _); cbn);
    rewrite ?app_nil_r;
    repeat split; reflexivity.
Qed.

Lemma createPayment_row_unused (i : InsertPayment) (d : Db) (p : Payment) :
  createPayment_row i d = Some p ->
  getPaymentByTransactionId_row (ip_transactionId i) d = None.
Proof.
  unfold createPayment_row.
  destruct (getPaymentByTransactionId_row (ip_transactionId i) d); [|reflexivity].
  rewrite andb_false_r. discriminate.
Qed.

Lemma verify_writes :
  forall (user : AuthUser) (data : VerifyPaymentInput) (now : Date) (w : World)
         (q : PaymentRequest) (p : Payment),
    List.find (fun x => N.eqb (pr_id x) (vp_paymentRequestId data)) (paymentRequests (db w))
    = Some q ->
    createPayment_row (verify_payment user data now) (db w) = Some p ->
    let d' := db (snd (post_payments_verify user (Some data) now w)) in
    let k := settlement_writes 2 (faults w) in
    payments d' = payments (db w) ++ (if Nat.leb 1 k then [p] else [])
    /\ paymentRequests d'
       = (if Nat.leb 2 k
          then paymentRequests (settled (vp_paymentRequestId data) now (db w))
          else paymentRequests (db w))
    /\ matchHistory d'
       = matchHistory (db w)
         ++ (if Nat.leb 3 k
             then [createMatchHistory_row (verify_history user data) (add_payment p (db w))]
             else []).
Proof.
  intros user data now w q p Hq Hp d' k.
  remember (post_payments_verify user (Some data) now w) as R eqn:HR.
  unfold post_payments_verify, try_catch, getPaymentRequest, getPaymentByTransactionId,
    createPayment, updatePaymentRequest, createMatchHistory in HR.
  unfold d', k. clear d' k.
  destruct w as [d fs]. cbn [db faults] in *.
  pose proof (createPayment_row_unused _ _ _ Hp) as Hu.
  cbn [verify_payment ip_transactionId] in Hu.
  repeat first [ rewrite Hq in HR | rewrite Hu in HR | rewrite Hp in HR
               | run_call HR | next_fault_case HR ].
  all: subst R; unfold settlement_writes; cbn; try (destruct (first_fault _); cbn);
    rewrite ?app_nil_r; repeat split; reflexivity.
Qed.

(** C3 (amended).  A match application (manual match or payment
    verification) makes its three writes one after the other, each committed
    on its own: create the settlement payment, set the request to paid,
    append the match record.  When a storage call of the handler is rejected,
    exactly the writes made before it are in the database: none, the payment
    alone, the payment and the status, or all three; with no rejected call
    all three are made. *)
Theorem settlement_writes_in_order :
  forall (user : AuthUser) (now : Date) (w : World),
    (forall (id prid : Id) (note' : option js_string) (nonce : js_string)
            (m : SmsInbox) (q : PaymentRequest) (p : Payment),
        List.find (fun x => N.eqb (sms_id x) id) (smsInbox (db w)) = Some m ->
        List.find (fun x => N.eqb (pr_id x) prid) (paymentRequests (db w)) = Some q ->
        createPayment_row (manual_payment user m q prid note' nonce now) (db w) = Some p ->
        let d' := db (snd (post_sms_manual_match user id prid note' nonce now w)) in
        let k := settlement_writes 3 (faults w) in
        payments d' = payments (db w) ++ (if Nat.leb 1 k then [p] else [])
        /\ paymentRequests d'
           = (if Nat.leb 2 k then paymentRequests (settled prid now (db w))
              else paymentRequests (db w))
        /\ matchHistory d'
           = matchHistory (db w)
             ++ (if Nat.leb 3 k
                 then [createMatchHistory_row (manual_history user id prid note')
                         (add_payment p (db w))]
                 else []))
    /\ (forall (data : VerifyPaymentInput) (q : PaymentRequest) (p : Payment),
          List.find (fun x => N.eqb (pr_id x) (vp_paymentRequestId data))
            (paymentRequests (db w)) = Some q ->
          createPayment_row (verify_payment user data now) (db w) = Some p ->
          let d' := db (snd (post_payments_verify user (Some data) now w)) in
          let k := settlement_writes 2 (faults w) in
          payments d' = payments (db w) ++ (if Nat.leb 1 k then [p] else [])
          /\ paymentRequests d'
             = (if Nat.leb 2 k
                then paymentRequests (settled (vp_paymentRequestId data) now (db w))
                else paymentRequests (db w))
          /\ matchHistory d'
             = matchHistory (db w)
               ++ (if Nat.leb 3 k
                   then [createMatchHistory_row (verify_history user data)
                           (add_payment p (db w))]
                   else [])).
Proof.
  intros user now w. split.
  - intros id prid note' nonce m q p. apply manual_match_writes.
  - intros data q p. apply verify_writes.
Qed.

Lemma settlement_writes_in_order_witness :
  createPayment_row
    (manual_payment Example.user ManualExample.message ManualExample.request 10%N None
       (lit "a1b2c3d4") 3000) ManualExample.before
  = Some (ManualExample.payment 200 (lit "a1b2c3d4"))
  /\ payments (db (snd (post_sms_manual_match Example.user 100%N 10%N None
                          (lit "a1b2c3d4") 3000
                          {| db := ManualExample.before; faults := [] |})))
     = [ManualExample.payment 200 (lit "a1b2c3d4")].
Proof.
  split; [reflexivity|].
  exact (proj1 (proj1 (settlement_writes_in_order Example.user 3000
                         {| db := ManualExample.before; faults := [] |})
                  100%N 10%N None (lit "a1b2c3d4") ManualExample.message
                  ManualExample.request (ManualExample.payment 200 (lit "a1b2c3d4"))
                  eq_refl eq_refl eq_refl)).
Defined.

(** C3, as stated, fails: when the status update is rejected (the fifth
    storage call of the manual match), the payment is recorded while the
    request is still pending and no match record exists. *)
Lemma settlement_writes_in_order_counterexample :
  let w := {| db := ManualExample.before;
              faults := [false; false; false; false; true] |} in
  let r := post_sms_manual_match Example.user 100%N 10%N None (lit "a1b2c3d4") 3000 w in
  fst r = fail 500 "Failed to match SMS"
  /\ payments (db (snd r)) = [ManualExample.payment 200 (lit "a1b2c3d4")]
  /\ List.map pr_status (paymentRequests (db (snd r))) = [Pending]
  /\ matchHistory (db (snd r)) = [].
Proof. cbv zeta. repeat split; reflexivity. Qed.

(** C2 (amended).  The manual match validates only that the message and the
    chosen payment request exist: when either is missing it answers 404 and
    writes nothing.  It checks neither the status of the request nor whether
    the message is already matched: whenever the payments table accepts the
    settlement row (its transaction id is not in use yet), the match
    succeeds and adds one payment and one match record; when the table
    refuses the row the answer is 500, not a conflict, and no payment or
    match record is added. *)
Theorem manual_match_checks :
  forall (user : AuthUser) (id prid : Id) (note' : option js_string)
         (nonce : js_string) (now : Date) (w : World),
    no_faults w ->
    let r := post_sms_manual_match user id prid note' nonce now w in
    match List.find (fun x => N.eqb (sms_id x) id) (smsInbox (db w)),
          List.find (fun x => N.eqb (pr_id x) prid) (paymentRequests (db w)) with
    | Some m, Some q =>
        match createPayment_row (manual_payment user m q prid note' nonce now) (db w) with
        | Some p =>
            fst r = json (Message "Match successful")
            /\ payments (db (snd r)) = payments (db w) ++ [p]
            /\ matchHistory (db (snd r))
               = matchHistory (db w)
                 ++ [createMatchHistory_row (manual_history user id prid note')
                       (add_payment p (db w))]
            /\ paymentRequests (db (snd r)) = paymentRequests (settled prid now (db w))
            /\ smsInbox (db (snd r)) = smsInbox (matched_sms id prid now (db w))
        | None =>
            fst r = fail 500 "Failed to match SMS"
            /\ payments (db (snd r)) = payments (db w)
            /\ matchHistory (db (snd r)) = matchHistory (db w)
        end
    | _, _ => status (fst r) = 404 /\ db (snd r) = db w
    end.
Proof.
  intros user id prid note' nonce now w Hw r.
  remember (post_sms_manual_match user id prid note' nonce now w) as R eqn:HR.
  unfold post_sms_manual_match, try_catch, getSmsInbox, getPaymentRequest,
    updateSmsInbox, createPayment, updatePaymentRequest, createMatchHistory in HR.
  unfold r. clear r.
  destruct w as [d fs]. unfold no_faults in Hw. cbn [db faults] in *. subst fs.
  run_call HR.
  destruct (List.find (fun x => N.eqb (sms_id x) id) (smsInbox d)) as [m|];
    [|subst R; split; reflexivity].
  run_call HR.
  destruct (List.find (fun x => N.eqb (pr_id x) prid) (paymentRequests d)) as [q|];
    [|subst R; split; reflexivity].
  run_call HR.
  assert (Hp : createPayment_row (manual_payment user m q prid note' nonce now)
                 (with_smsInbox
                    (update_where (fun m0 => N.eqb (sms_id m0) id)
                       (fun m0 => set_processedAt (Some now)
                                    (set_matchedRequestId (Some prid) m0))
                       (smsInbox d)) d)
               = createPayment_row (manual_payment user m q prid note' nonce now) d)
    by reflexivity.
  run_call HR. rewrite Hp in HR.
  destruct (createPayment_row (manual_payment user m q prid note' nonce now) d) as [p|].
  - repeat run_call HR. subst R. cbn. repeat split; reflexivity.
  - subst R. cbn. repeat split; reflexivity.
Qed.

Lemma manual_match_checks_witness :
  no_faults {| db := ManualExample.before; faults := [] |}
  /\ fst (post_sms_manual_match Example.user 100%N 10%N None (lit "a1b2c3d4") 3000
            {| db := ManualExample.before; faults := [] |})
     = json (Message "Match successful").
Proof.
  split; [reflexivity|].
  exact (proj1 (manual_match_checks Example.user 100%N 10%N None (lit "a1b2c3d4") 3000
                  {| db := ManualExample.before; faults := [] |} eq_refl)).
Defined.

(** C2, as stated, fails: message 100 is matched to request 10, which
    becomes paid; a second manual match of the same message to the same
    request succeeds as well, and leaves two payments and two match
    records. *)
Lemma manual_match_checks_counterexample :
  let w0 := {| db := ManualExample.before; faults := [] |} in
  let r1 := post_sms_manual_match Example.user 100%N 10%N None (lit "a1b2c3d4") 3000 w0 in
  let r2 := post_sms_manual_match Example.user 100%N 10%N None (lit "e5f6g7h8") 4000 (snd r1) in
  List.map matchedRequestId (smsInbox (db (snd r1))) = [Some 10%N]
  /\ List.map pr_status (paymentRequests (db (snd r1))) = [Paid]
  /\ fst r2 = json (Message "Match successful")
  /\ List.map transactionId (payments (db (snd r2)))
     = [lit "MANUAL-a1b2c3d4"; lit "MANUAL-e5f6g7h8"]
  /\ List.length (matchHistory (db (snd r2))) = 2%nat.
Proof. cbv zeta. repeat split; reflexivity. Qed.

(** With a reference on the message the second attempt is refused by the
    payments table (the transaction id is in use): the answer is 500, and
    the message has been pointed at the other request all the same. *)
Example manual_match_same_reference :
  let m := Example.sms (Some 50000) (Some (lit "ABC123XYZ")) in
  let w0 := Example.world [Example.request 10 50000 9000 100;
                           Example.request 11 50000 9000 200] [m] in
  let r1 := post_sms_manual_match Example.user 100%N 10%N None (lit "a1b2c3d4") 3000 w0 in
  let r2 := post_sms_manual_match Example.user 100%N 11%N None (lit "e5f6g7h8") 4000 (snd r1) in
  fst r2 = fail 500 "Failed to match SMS"
  /\ List.length (payments (db (snd r2))) = 1%nat
  /\ List.length (matchHistory (db (snd r2))) = 1%nat
  /\ List.map matchedRequestId (smsInbox (db (snd r2))) = [Some 11%N]
  /\ List.map pr_status (paymentRequests (db (snd r2))) = [Paid; Pending].
Proof. cbv zeta. repeat split; reflexivity. Qed.

Lemma webhook_never_matches_witness :
  status (fst (post_sms_webhook Example.hash WebhookExample.request 2000
                 WebhookExample.before)) = 200
  /\ exists m,
       smsInbox (db (snd (post_sms_webhook Example.hash WebhookExample.request 2000
                            WebhookExample.before)))
       = smsInbox (db WebhookExample.before) ++ [m]
       /\ fst (post_sms_webhook Example.hash WebhookExample.request 2000
                 WebhookExample.before) = json (SmsReceived (sms_id m))
       /\ matchedRequestId m = None /\ processedAt m = None
       /\ forall shop,
            In m (getUnidentifiedSms_rows shop
                    (db (snd (post_sms_webhook Example.hash WebhookExample.request 2000
                                WebhookExample.before)))).
Proof.
  split; [reflexivity|].
  exact (proj2 (proj2 (proj2 (webhook_never_matches Example.hash WebhookExample.request
                                2000 WebhookExample.before))) eq_refl).
Defined.


(* ================================================================== *)
(** * Further properties *)

(** ** The matcher finds words of the expression *)

Lemma star_sound {A} (p : N -> bool) (s : js_string) (k : js_string -> option A) (x : A) :
  star p s k = Some x ->
  exists w s', s = w ++ s' /\ Forall (fun c => p c = true) w /\ k s' = Some x.
Proof.
  induction s as [|c t IH]; simpl.
  - intros H. exists [], []. auto.
  - destruct (p c) eqn:E.
    + destruct (star p t k) as [a|] eqn:S.
      * intros [= ->]. destruct (IH eq_refl) as [w [s' [-> [Hw Hk]]]].
        exists (c :: w), s'. auto.
      * intros H. exists [], (c :: t). auto.
    + intros H. exists [], (c :: t). auto.
Qed.

Lemma rmatch_sound {A} (r : regex) :
  forall (s cap : js_string) (k : js_string -> js_string -> option A) (x : A),
    rmatch r s cap k = Some x ->
    exists w s' cap', s = w ++ s' /\ matches r w cap cap' /\ k s' cap' = Some x.
Proof.
  induction r as [p | r1 IH1 r2 IH2 | r1 IH1 r2 IH2 | r1 IH1 | p | r1 IH1];
    intros s cap k x; cbn [rmatch].
  - destruct s as [|c t]; [discriminate|]. destruct (p c) eqn:E; [|discriminate].
    intros H. exists [c], t, cap. repeat split; auto. now constructor.
  - intros H. apply IH1 in H. destruct H as [w1 [s1 [c1 [-> [M1 H]]]]].
    apply IH2 in H. destruct H as [w2 [s2 [c2 [-> [M2 H]]]]].
    exists (w1 ++ w2), s2, c2. rewrite app_assoc. repeat split; auto.
    econstructor; eauto.
  - destruct (rmatch r1 s cap k) as [a|] eqn:E.
    + intros [= ->]. apply IH1 in E. destruct E as [w [s' [c' [-> [M H]]]]].
      exists w, s', c'. repeat split; auto. now apply MAltL.
    + intros H. apply IH2 in H. destruct H as [w [s' [c' [-> [M H]]]]].
      exists w, s', c'. repeat split; auto. now apply MAltR.
  - destruct (rmatch r1 s cap k) as [a|] eqn:E.
    + intros [= ->]. apply IH1 in E. destruct E as [w [s' [c' [-> [M H]]]]].
      exists w, s', c'. repeat split; auto. now apply MOptSome.
    + intros H. exists [], s, cap. repeat split; auto. apply MOptNone.
  - intros H. apply star_sound in H. destruct H as [w [s' [-> [Hw H]]]].
    exists w, s', cap. repeat split; auto. now constructor.
  - intros H. apply IH1 in H. destruct H as [w [s' [c' [-> [M H]]]]].
    rewrite firstn_length_app in H.
    exists w, s', w. repeat split; auto. econstructor; eauto.
Qed.

Lemma exec_sound (r : regex) (text g : js_string) :
  exec r text = Some g ->
  exists pre w post, text = pre ++ w ++ post /\ matches r w [] g.
Proof.
  intros H. pose proof (exec_leftmost r text) as L. rewrite H in L.
  destruct L as [pre [suf [-> [Hm _]]]].
  unfold match_here in Hm. apply rmatch_sound in Hm.
  destruct Hm as [w [s' [c' [-> [M [= ->]]]]]].
  exists pre, w, s'. auto.
Qed.

Lemma matches_word_i_aux (l : list ascii) (a : ascii) (w cap cap' : js_string) :
  matches (word_i_aux l a) w cap cap' ->
  Forall2 (fun c b => chr_i b c = true) w (a :: l) /\ cap' = cap.
Proof.
  revert a w cap cap'. induction l as [|b l IH]; intros a w cap cap' H; simpl in H.
  - inversion H; subst. split; [|reflexivity]. constructor; [assumption|constructor].
  - inversion H; subst.
    match goal with
    | H1 : matches (Class _) _ _ _, H2 : matches (word_i_aux _ _) _ _ _ |- _ =>
        inversion H1; subst; apply IH in H2; destruct H2 as [F ->]
    end.
    split; [|reflexivity]. simpl. constructor; assumption.
Qed.

Lemma matches_plus (p : N -> bool) (w cap cap' : js_string) :
  matches (Plus p) w cap cap' ->
  w <> [] /\ Forall (fun c => p c = true) w /\ cap' = cap.
Proof.
  unfold Plus. intros H. inversion H; subst.
  match goal with
  | H1 : matches (Class _) _ _ _, H2 : matches (Star _) _ _ _ |- _ =>
      inversion H1; subst; inversion H2; subst
  end.
  simpl. repeat split; [discriminate|now constructor].
Qed.

Lemma matches_word_i (s : string) (a : ascii) (l : list ascii) (w cap cap' : js_string) :
  list_ascii_of_string s = a :: l ->
  matches (word_i s) w cap cap' -> same_word_i w s /\ cap' = cap.
Proof.
  intros E H. unfold word_i, same_word_i in *. rewrite E in *.
  now apply matches_word_i_aux.
Qed.

(** X1.  A reference extracted by the webhook is a non-empty run of ASCII
    letters and digits; in the text it follows one of the labels UTR, UPI,
    Ref, TxnId (in any letter case) and any colons and white space; and it is
    what the parsed signal carries. *)
Theorem utr_shape :
  forall text g : js_string,
    utrMatch text = Some g ->
    g <> []
    /\ Forall (fun c => alnum_i c = true) g
    /\ (exists pre label sep post,
          text = pre ++ label ++ sep ++ g ++ post
          /\ (same_word_i label "UTR" \/ same_word_i label "UPI"
              \/ same_word_i label "Ref" \/ same_word_i label "TxnId")
          /\ Forall (fun c => colon_or_space c = true) sep)
    /\ sig_utr (parse text) = Some g.
Proof.
  intros text g H.
  assert (Hs : sig_utr (parse text) = group_or_null (Some g)).
  { unfold parse. cbn [sig_utr]. now rewrite H. }
  unfold utrMatch in H. apply exec_sound in H.
  destruct H as [pre [w [post [-> M]]]].
  unfold utrRe in M. inversion M as [ | r1 r2 label w2 c0 c1 c2 ML M2 | | | | | | ]; subst.
  inversion M2 as [ | r1 r2 sep w3 c0 c1' c2' MS MG | | | | | | ]; subst.
  inversion MS; subst.
  inversion MG as [ | | | | | | | r w0 c0 c3 MP ]; subst.
  apply matches_plus in MP. destruct MP as [Hne [Hall _]].
  assert (L : same_word_i label "UTR" \/ same_word_i label "UPI"
              \/ same_word_i label "Ref" \/ same_word_i label "TxnId").
  { inversion ML as [ | | r1 r2 w1 c0 c4 MU | r1 r2 w1 c0 c4 MR | | | | ]; subst.
    - left. eapply matches_word_i; [reflexivity|exact MU].
    - inversion MR as [ | | r1 r2 w1 c0 c4 MU | r1 r2 w1 c0 c4 MR' | | | | ]; subst.
      + right; left. eapply matches_word_i; [reflexivity|exact MU].
      + inversion MR' as [ | | r1 r2 w1 c0 c4 MU | r1 r2 w1 c0 c4 MT | | | | ]; subst.
        * right; right; left. eapply matches_word_i; [reflexivity|exact MU].
        * right; right; right. eapply matches_word_i; [reflexivity|exact MT]. }
  repeat split; auto.
  - exists pre, label, sep, post. repeat split; auto.
    now rewrite <- !app_assoc.
  - rewrite Hs. destruct g; [congruence|reflexivity].
Qed.

Lemma utr_shape_witness :
  utrMatch (lit "Rs. 500.00 credited. UTR: ABC123XYZ") = Some (lit "ABC123XYZ")
  /\ sig_utr (parse (lit "Rs. 500.00 credited. UTR: ABC123XYZ")) = Some (lit "ABC123XYZ").
Proof.
  split; [reflexivity|].
  exact (proj2 (proj2 (proj2 (utr_shape (lit "Rs. 500.00 credited. UTR: ABC123XYZ")
                                (lit "ABC123XYZ") eq_refl)))).
Defined.

(** The label is found inside longer words too. *)
Example utr_inside_a_word :
  utrMatch (lit "Reference 12") = Some (lit "erence")
  /\ utrMatch (lit "your refund of Rs 10") = Some (lit "und").
Proof. split; reflexivity. Qed.

(** X2.  A payee address extracted by the webhook occurs in the text and has
    the shape local@domain: a non-empty local part of letters, digits, ".",
    "_" and "-", one "@", and a non-empty domain of letters. *)
Theorem vpa_shape :
  forall text g : js_string,
    vpaMatch text = Some g ->
    (exists pre post, text = pre ++ g ++ post)
    /\ (exists local domain,
          g = local ++ cu "@" :: domain
          /\ local <> [] /\ Forall (fun c => vpa_local c = true) local
          /\ domain <> [] /\ Forall (fun c => is_alpha c = true) domain)
    /\ sig_vpa (parse text) = Some g.
Proof.
  intros text g H.
  assert (Hs : sig_vpa (parse text) = group_or_null (Some g)).
  { unfold parse. cbn [sig_vpa]. now rewrite H. }
  unfold vpaMatch in H. apply exec_sound in H.
  destruct H as [pre [w [post [-> M]]]].
  unfold vpaRe in M.
  inversion M as [ | | | | | | | r w0 c0 c3 MB ]; subst.
  inversion MB as [ | r1 r2 local w2 c0 c1 c2 ML M2 | | | | | | ]; subst.
  inversion M2 as [ | r1 r2 at' domain c0' c1' c2' MA MD | | | | | | ]; subst.
  inversion MA as [ p c c0' E | | | | | | | ]; subst.
  apply matches_plus in ML. destruct ML as [Ln [La _]].
  apply matches_plus in MD. destruct MD as [Dn [Da _]].
  unfold chr in E. apply N.eqb_eq in E. subst c.
  split; [exists pre, post; reflexivity|]. split.
  - exists local, domain. repeat split; auto.
  - rewrite Hs. destruct local; [congruence|reflexivity].
Qed.

Lemma vpa_shape_witness :
  vpaMatch (lit "paid to shop.one@okbank via UPI") = Some (lit "shop.one@okbank")
  /\ sig_vpa (parse (lit "paid to shop.one@okbank via UPI")) = Some (lit "shop.one@okbank").
Proof.
  split; [reflexivity|].
  exact (proj2 (proj2 (vpa_shape (lit "paid to shop.one@okbank via UPI")
                         (lit "shop.one@okbank") eq_refl))).
Defined.

(* ================================================================== *)
(** ** Payment verification *)

Lemma find_app_none {A} (p : A -> bool) (l : list A) (x : A) :
  List.find p l = None -> p x = true -> List.find p (l ++ [x]) = Some x.
Proof.
  induction l as [|y l IH]; simpl; intros H Hx.
  - now rewrite Hx.
  - destruct (p y); [discriminate|]. now apply IH.
Qed.

Lemma str_eqb_refl (a : js_string) : str_eqb a a = true.
Proof. now apply str_eqb_eq. Qed.

Lemma createPayment_row_fields (i : InsertPayment) (d : Db) (p : Payment) :
  createPayment_row i d = Some p ->
  transactionId p = ip_transactionId i /\ pay_requestId p = ip_requestId i
  /\ pay_amountCents p = ip_amountCents i /\ pay_id p = next_id d.
Proof.
  unfold createPayment_row. destruct (_ && _); [|discriminate].
  intros [= <-]. repeat split.
Qed.

(** The outcome of a verification when no storage call is rejected. *)
Lemma verify_no_faults (user : AuthUser) (data : VerifyPaymentInput) (now : Date) (w : World) :
  no_faults w ->
  post_payments_verify user (Some data) now w
  = match List.find (fun x => N.eqb (pr_id x) (vp_paymentRequestId data))
            (paymentRequests (db w)) with
    | None => (fail 404 "Payment request not found", w)
    | Some _ =>
        match getPaymentByTransactionId_row (vp_transactionId data) (db w) with
        | Some _ => (fail 400 "Transaction ID already used", w)
        | None =>
            match createPayment_row (verify_payment user data now) (db w) with
            | None => (fail 500 "Failed to verify payment", w)
            | Some p =>
                (json (PaymentBody p),
                 {| db := add_auditLog
                            {| al_userId := Some (user_id user); action := "verify";
                               entityType := "payment"; entityId := Some (pay_id p) |}
                            (add_matchHistory
                               (createMatchHistory_row (verify_history user data)
                                  (settled (vp_paymentRequestId data) now (add_payment p (db w))))
                               (settled (vp_paymentRequestId data) now (add_payment p (db w))));
                    faults := [] |})
            end
        end
    end.
Proof.
  intros Hw. destruct w as [d fs]. unfold no_faults in Hw. cbn [db faults] in *. subst fs.
  remember (post_payments_verify user (Some data) now {| db := d; faults := [] |}) as R eqn:HR.
  unfold post_payments_verify, try_catch, getPaymentRequest, getPaymentByTransactionId,
    createPayment, updatePaymentRequest, createMatchHistory in HR.
  run_call HR.
  destruct (List.find _ (paymentRequests d)) as [q|]; [|exact HR].
  run_call HR.
  destruct (getPaymentByTransactionId_row (vp_transactionId data) d) as [e|]; [exact HR|].
  run_call HR.
  destruct (createPayment_row (verify_payment user data now) d) as [p|]; [|exact HR].
  repeat run_call HR. exact HR.
Qed.

(** X3.  Payment verification turns away an unknown payment request (404)
    and a transaction id that a payment already carries (400) before it
    writes anything: the database is left as it was, whatever else happens
    to the storage calls. *)
Theorem verify_rejects_before_writing :
  forall (user : AuthUser) (data : VerifyPaymentInput) (now : Date) (w : World),
    List.find (fun x => N.eqb (pr_id x) (vp_paymentRequestId data)) (paymentRequests (db w)) = None
    \/ getPaymentByTransactionId_row (vp_transactionId data) (db w) <> None ->
    let r := post_payments_verify user (Some data) now w in
    db (snd r) = db w
    /\ (no_faults w ->
        fst r = match List.find (fun x => N.eqb (pr_id x) (vp_paymentRequestId data))
                        (paymentRequests (db w)) with
                | None => fail 404 "Payment request not found"
                | Some _ => fail 400 "Transaction ID already used"
                end).
Proof.
  intros user data now w H r. split.
  - remember (post_payments_verify user (Some data) now w) as R eqn:HR.
    unfold r. clear r.
    unfold post_payments_verify, try_catch, getPaymentRequest, getPaymentByTransactionId,
      createPayment, updatePaymentRequest, createMatchHistory in HR.
    destruct w as [d fs]. cbn [db faults] in *.
    run_call HR. destruct (hd false fs); [subst R; reflexivity|].
    destruct (List.find _ (paymentRequests d)) as [q|]; [|subst R; reflexivity].
    destruct H as [H|H]; [discriminate|].
    run_call HR. destruct (hd false (tl fs)); [subst R; reflexivity|].
    destruct (getPaymentByTransactionId_row (vp_transactionId data) d) as [e|];
      [subst R; reflexivity|congruence].
  - intros Hw. unfold r. rewrite verify_no_faults by exact Hw.
    destruct (List.find _ (paymentRequests (db w))) as [q|]; [|reflexivity].
    destruct H as [H|H]; [discriminate|].
    destruct (getPaymentByTransactionId_row (vp_transactionId data) (db w)); [reflexivity|congruence].
Qed.

Lemma verify_rejects_before_writing_witness :
  (List.find (fun x => N.eqb (pr_id x) 99%N) (paymentRequests ManualExample.before) = None
   \/ getPaymentByTransactionId_row (lit "T1") ManualExample.before <> None)
  /\ db (snd (post_payments_verify Example.user
                (Some {| vp_paymentRequestId := 99%N; vp_transactionId := lit "T1";
                         vp_amountCents := 50000; vp_notes := None |})
                3000 {| db := ManualExample.before; faults := [] |}))
     = ManualExample.before.
Proof.
  split; [left; reflexivity|].
  exact (proj1 (verify_rejects_before_writing Example.user
                  {| vp_paymentRequestId := 99%N; vp_transactionId := lit "T1";
                     vp_amountCents := 50000; vp_notes := None |}
                  3000 {| db := ManualExample.before; faults := [] |}
                  (or_introl eq_refl))).
Defined.

(** X4.  A transaction id settles at most once through verification: after
    a verification that succeeded, any further verification with the same
    transaction id (by any user, for any request and amount) is turned away
    with 400, or 404 when its request is unknown, and writes nothing. *)
Theorem verify_replay_rejected :
  forall (user : AuthUser) (data : VerifyPaymentInput) (now : Date) (w : World) (p : Payment),
    no_faults w ->
    fst (post_payments_verify user (Some data) now w) = json (PaymentBody p) ->
    forall (user' : AuthUser) (data' : VerifyPaymentInput) (now' : Date),
      vp_transactionId data' = vp_transactionId data ->
      let w1 := snd (post_payments_verify user (Some data) now w) in
      snd (post_payments_verify user' (Some data') now' w1) = w1
      /\ (fst (post_payments_verify user' (Some data') now' w1)
          = fail 400 "Transaction ID already used"
          \/ fst (post_payments_verify user' (Some data') now' w1)
             = fail 404 "Payment request not found").
Proof.
  intros user data now w p Hw Hok user' data' now' Htx w1.
  unfold w1. clear w1. revert Hok.
  rewrite (verify_no_faults user data now w Hw).
  destruct (List.find _ (paymentRequests (db w))) as [q|]; [|discriminate].
  destruct (getPaymentByTransactionId_row (vp_transactionId data) (db w)) as [e|] eqn:U;
    [discriminate|].
  destruct (createPayment_row (verify_payment user data now) (db w)) as [p0|] eqn:C;
    [|discriminate].
  cbn [fst snd]. intros [= <-].
  rewrite verify_no_faults by reflexivity. cbn [db].
  assert (F : getPaymentByTransactionId_row (vp_transactionId data')
                (add_auditLog
                   {| al_userId := Some (user_id user); action := "verify";
                      entityType := "payment"; entityId := Some (pay_id p0) |}
                   (add_matchHistory
                      (createMatchHistory_row (verify_history user data)
                         (settled (vp_paymentRequestId data) now (add_payment p0 (db w))))
                      (settled (vp_paymentRequestId data) now (add_payment p0 (db w)))))
              = Some p0).
  { unfold getPaymentByTransactionId_row. cbn [payments add_auditLog add_matchHistory
      settled with_paymentRequests add_payment].
    apply find_app_none.
    - rewrite Htx. exact U.
    - apply createPayment_row_fields in C. destruct C as [C _].
      rewrite C, Htx. apply str_eqb_refl. }
  rewrite F.
  destruct (List.find _ _); cbn [fst snd]; auto.
Qed.

Lemma verify_replay_rejected_witness :
  no_faults {| db := ManualExample.before; faults := [] |}
  /\ fst (post_payments_verify Example.user
            (Some {| vp_paymentRequestId := 10%N; vp_transactionId := lit "T1";
                     vp_amountCents := 50000; vp_notes := None |})
            3000
            (snd (post_payments_verify Example.user
                    (Some {| vp_paymentRequestId := 10%N; vp_transactionId := lit "T1";
                             vp_amountCents := 50000; vp_notes := None |})
                    3000 {| db := ManualExample.before; faults := [] |})))
     = fail 400 "Transaction ID already used".
Proof.
  split; [reflexivity|].
  destruct (proj2 (verify_replay_rejected Example.user
                     {| vp_paymentRequestId := 10%N; vp_transactionId := lit "T1";
                        vp_amountCents := 50000; vp_notes := None |}
                     3000 {| db := ManualExample.before; faults := [] |}
                     {| pay_id := 200%N; pay_requestId := 10%N; transactionId := lit "T1";
                        pay_amountCents := 50000; verifiedBy := Some 7%N;
                        verifiedAt := 3000; notes := None |}
                     eq_refl eq_refl Example.user
                     {| vp_paymentRequestId := 10%N; vp_transactionId := lit "T1";
                        vp_amountCents := 50000; vp_notes := None |}
                     3000 eq_refl)) as [H|H].
  - exact H.
  - discriminate H.
Defined.

(* ================================================================== *)
(** ** Manual match and dismissal *)

Lemma update_where_none {A} (p : A -> bool) (f : A -> A) (l : list A) :
  List.find p l = None -> update_where p f l = l.
Proof.
  unfold update_where. induction l as [|x l IH]; simpl; [reflexivity|].
  destruct (p x); [discriminate|]. intros H. now rewrite IH.
Qed.

Lemma update_where_In {A} (p : A -> bool) (f : A -> A) (l : list A) (y : A) :
  In y (update_where p f l) <-> exists x, In x l /\ y = if p x then f x else x.
Proof.
  unfold update_where. rewrite in_map_iff. split; intros [x [H1 H2]]; exists x; auto.
Qed.

(** The outcome of a manual match when no storage call is rejected. *)
Lemma manual_match_no_faults (user : AuthUser) (id prid : Id) (note' : option js_string)
    (nonce : js_string) (now : Date) (w : World) :
  no_faults w ->
  post_sms_manual_match user id prid note' nonce now w
  = match List.find (fun x => N.eqb (sms_id x) id) (smsInbox (db w)) with
    | None => (fail 404 "SMS not found", w)
    | Some m =>
        match List.find (fun x => N.eqb (pr_id x) prid) (paymentRequests (db w)) with
        | None => (fail 404 "Payment request not found", w)
        | Some q =>
            match createPayment_row (manual_payment user m q prid note' nonce now) (db w) with
            | None => (fail 500 "Failed to match SMS",
                       {| db := matched_sms id prid now (db w); faults := [] |})
            | Some p =>
                (json (Message "Match successful"),
                 {| db := add_auditLog
                            {| al_userId := Some (user_id user); action := "manual_match";
                               entityType := "payment"; entityId := Some prid |}
                            (add_matchHistory
                               (createMatchHistory_row (manual_history user id prid note')
                                  (settled prid now (add_payment p (matched_sms id prid now (db w)))))
                               (settled prid now (add_payment p (matched_sms id prid now (db w)))));
                    faults := [] |})
            end
        end
    end.
Proof.
  intros Hw. destruct w as [d fs]. unfold no_faults in Hw. cbn [db faults] in *. subst fs.
  remember (post_sms_manual_match user id prid note' nonce now {| db := d; faults := [] |})
    as R eqn:HR.
  unfold post_sms_manual_match, try_catch, getSmsInbox, getPaymentRequest,
    updateSmsInbox, createPayment, updatePaymentRequest, createMatchHistory in HR.
  run_call HR.
  destruct (List.find _ (smsInbox d)) as [m|]; [|exact HR].
  run_call HR.
  destruct (List.find _ (paymentRequests d)) as [q|]; [|exact HR].
  run_call HR. run_call HR.
  change (createPayment_row (manual_payment user m q prid note' nonce now)
            (with_smsInbox
               (update_where (fun m0 => N.eqb (sms_id m0) id)
                  (fun m0 => set_processedAt (Some now)
                               (set_matchedRequestId (Some prid) m0))
                  (smsInbox d)) d))
    with (createPayment_row (manual_payment user m q prid note' nonce now) d) in HR.
  destruct (createPayment_row (manual_payment user m q prid note' nonce now) d) as [p|];
    [|exact HR].
  repeat run_call HR. exact HR.
Qed.



(** What a dismissal leaves in the database, whichever calls are rejected. *)
Lemma dismiss_writes (user : AuthUser) (id : Id) (now : Date) (w : World) :
  let d' := db (snd (post_sms_dismiss user id now w)) in
  (smsInbox d' = smsInbox (db w)
   \/ smsInbox d' = update_where (fun m => N.eqb (sms_id m) id)
                      (set_processedAt (Some now)) (smsInbox (db w)))
  /\ devices d' = devices (db w)
  /\ paymentRequests d' = paymentRequests (db w)
  /\ payments d' = payments (db w)
  /\ matchHistory d' = matchHistory (db w).
Proof.
  destruct w as [d fs]. cbn [db].
  remember (post_sms_dismiss user id now {| db := d; faults := fs |}) as R eqn:HR.
  unfold post_sms_dismiss, try_catch, updateSmsInbox in HR.
  run_call HR.
  next_fault_case HR; [| |]; try (subst R; cbn; tauto);
    (run_call HR; next_fault_case HR; subst R; cbn; tauto).
Qed.

(** X6.  Dismissing a message only stamps its processing time and never
    answers 404.  Whichever storage calls are rejected, requests, payments,
    match history and devices are as before.  When no call is rejected the
    answer is 200 even if no message has the id (then the inbox is as
    before); every row keeps its id, its match and its text, the rows with
    the id have the time of the call as their processing time, and the
    other rows are untouched. *)
Theorem dismiss_effect :
  forall (user : AuthUser) (id : Id) (now : Date) (w : World),
    let r := post_sms_dismiss user id now w in
    paymentRequests (db (snd r)) = paymentRequests (db w)
    /\ payments (db (snd r)) = payments (db w)
    /\ matchHistory (db (snd r)) = matchHistory (db w)
    /\ devices (db (snd r)) = devices (db w)
    /\ (no_faults w ->
        fst r = json (Message "SMS dismissed")
        /\ List.map (fun m => (sms_id m, matchedRequestId m, rawText m)) (smsInbox (db (snd r)))
           = List.map (fun m => (sms_id m, matchedRequestId m, rawText m)) (smsInbox (db w))
        /\ (forall m, In m (smsInbox (db (snd r))) ->
                      (sms_id m = id /\ processedAt m = Some now) \/ In m (smsInbox (db w)))
        /\ (forall m, In m (smsInbox (db (snd r))) -> sms_id m = id -> processedAt m = Some now)
        /\ (List.find (fun m => N.eqb (sms_id m) id) (smsInbox (db w)) = None ->
            smsInbox (db (snd r)) = smsInbox (db w))).
Proof.
  intros user id now w r.
  destruct (dismiss_writes user id now w) as [Hi [Hd [Hq [Hp Hh]]]]. fold r in Hi, Hd, Hq, Hp, Hh.
  split; [exact Hq|split; [exact Hp|split; [exact Hh|split; [exact Hd|]]]].
  clear Hi Hd Hq Hp Hh.
  intros Hw. destruct w as [d fs]. unfold no_faults in Hw. cbn [faults] in Hw. subst fs.
  subst r. cbn [db].
  remember (post_sms_dismiss user id now {| db := d; faults := [] |}) as R eqn:HR.
  unfold post_sms_dismiss, try_catch, updateSmsInbox in HR.
  repeat run_call HR. unfold ret in HR. subst R.
  cbn [fst snd db smsInbox add_auditLog with_smsInbox].
  split; [reflexivity|]. split; [|split; [|split]].
  - unfold update_where. rewrite map_map. apply map_ext.
    intros x. destruct (N.eqb (sms_id x) id); reflexivity.
  - intros m Hm. apply update_where_In in Hm. destruct Hm as [x [Hx ->]].
    destruct (N.eqb (sms_id x) id) eqn:E.
    + left. apply N.eqb_eq in E. split; [exact E|reflexivity].
    + right. exact Hx.
  - intros m Hm. apply update_where_In in Hm. destruct Hm as [x [Hx ->]].
    destruct (N.eqb (sms_id x) id) eqn:E.
    + reflexivity.
    + intros E'. apply N.eqb_neq in E. contradiction.
  - apply update_where_none.
Qed.

(* ================================================================== *)
(** ** Candidates after a match *)

(** X7.  A request settled by a manual match is pending no more: after a
    match that succeeded, no candidate query, for any user and any message,
    returns a request with that id. *)
Theorem matched_request_not_candidate :
  forall (user : AuthUser) (id prid : Id) (note' : option js_string)
         (nonce : js_string) (now : Date) (w : World),
    no_faults w ->
    fst (post_sms_manual_match user id prid note' nonce now w)
    = json (Message "Match successful") ->
    let w1 := snd (post_sms_manual_match user id prid note' nonce now w) in
    forall (user' : AuthUser) (id' : Id) (cs : list Candidate),
      body (fst (get_sms_candidates user' id' w1)) = CandidateList cs ->
      forall c, In c cs -> pr_id (cand_request c) <> prid.
Proof.
  intros user id prid note' nonce now w Hw Hok w1 user' id' cs Hcs c Hc.
  apply get_sms_candidates_body in Hcs. destruct Hcs as [m' [_ ->]].
  apply score_candidates_In in Hc. destruct Hc as [Hc _].
  apply pending_rows_In in Hc. destruct Hc as [Hin [Hst _]].
  unfold w1 in Hin. clear w1. revert Hok Hin.
  rewrite (manual_match_no_faults user id prid note' nonce now w Hw).
  destruct (List.find (fun x => N.eqb (sms_id x) id) (smsInbox (db w))) as [m|];
    [|discriminate].
  destruct (List.find (fun x => N.eqb (pr_id x) prid) (paymentRequests (db w))) as [q|];
    [|discriminate].
  destruct (createPayment_row (manual_payment user m q prid note' nonce now) (db w))
    as [p|]; [|discriminate].
  intros _. cbn [fst snd db].
  cbn [paymentRequests add_auditLog add_matchHistory settled with_paymentRequests
       add_payment matched_sms with_smsInbox].
  intros Hin. apply update_where_In in Hin. destruct Hin as [x [_ E]].
  destruct (N.eqb (pr_id x) prid) eqn:Ex.
  - rewrite E in Hst. discriminate Hst.
  - rewrite E. apply N.eqb_neq. exact Ex.
Qed.

Lemma matched_request_not_candidate_witness :
  no_faults {| db := ManualExample.before; faults := [] |}
  /\ forall cs,
       body (fst (get_sms_candidates Example.user 100%N
                    (snd (post_sms_manual_match Example.user 100%N 10%N None
                            (lit "a1b2c3d4") 3000
                            {| db := ManualExample.before; faults := [] |}))))
       = CandidateList cs ->
       forall c, In c cs -> pr_id (cand_request c) <> 10%N.
Proof.
  split; [reflexivity|].
  exact (matched_request_not_candidate Example.user 100%N 10%N None (lit "a1b2c3d4") 3000
           {| db := ManualExample.before; faults := [] |} eq_refl eq_refl Example.user 100%N).
Defined.

(* ================================================================== *)
(** ** The request listing *)

Lemma firstn_In {A} (n : nat) (l : list A) (x : A) : In x (firstn n l) -> In x l.
Proof.
  revert l. induction n as [|n IH]; intros [|y l]; simpl; try tauto.
  intros [->|H]; auto.
Qed.

Lemma StronglySorted_firstn {A} (R : A -> A -> Prop) (n : nat) (l : list A) :
  StronglySorted R l -> StronglySorted R (firstn n l).
Proof.
  intros H. revert n. induction H as [|a l Hs IH Ha]; intros [|n]; simpl;
    try constructor; auto.
  rewrite Forall_forall in *. intros b Hb. apply Ha. eapply firstn_In; eauto.
Qed.

Lemma insert_by_length {A} (cmp : A -> A -> Z) (x : A) (l : list A) :
  List.length (insert_by cmp x l) = S (List.length l).
Proof.
  induction l as [|y l IH]; simpl; [reflexivity|].
  destruct (0 <? cmp x y); simpl; now rewrite ?IH.
Qed.

Lemma sort_by_length {A} (cmp : A -> A -> Z) (l : list A) :
  List.length (sort_by cmp l) = List.length l.
Proof.
  induction l as [|y l IH]; simpl; [reflexivity|].
  now rewrite insert_by_length, IH.
Qed.

(** X8.  The request listing of the storage layer.  Every row returned is a
    row of the table that meets each filter given; a missing filter, and the
    status filter [all], exclude nothing, so a user without a shop is shown
    the requests of every shop.  The rows come newest first.  A limit of
    [n > 0] returns the first [n] rows of the unlimited listing; a limit of 0
    is no limit. *)
Theorem getPaymentRequests_listing :
  forall (shop branch : option Id) (st : option status_filter) (lim : option nat) (d : Db),
    let f := {| f_shopId := shop; f_branchId := branch; f_status := st; f_limit := lim |} in
    let unlimited :=
      getPaymentRequests_rows
        {| f_shopId := shop; f_branchId := branch; f_status := st; f_limit := None |} d in
    (forall r, In r unlimited
               <-> In r (paymentRequests d)
                   /\ (forall s, shop = Some s -> pr_shopId r = s)
                   /\ (forall b, branch = Some b -> pr_branchId r = b)
                   /\ (forall s, st = Some (Status s) -> pr_status r = s))
    /\ StronglySorted (fun a b => pr_createdAt a >= pr_createdAt b) (getPaymentRequests_rows f d)
    /\ getPaymentRequests_rows f d
       = match lim with
         | None | Some O => unlimited
         | Some n => firstn n unlimited
         end
    /\ (forall n, lim = Some (S n) ->
                  List.length (getPaymentRequests_rows f d)
                  = Nat.min (S n) (List.length unlimited))
    /\ List.length unlimited
       = List.length (List.filter (request_conditions f) (paymentRequests d))
    /\ getPaymentRequests_rows
         {| f_shopId := shop; f_branchId := branch; f_status := Some AllStatuses;
            f_limit := lim |} d
       = getPaymentRequests_rows
           {| f_shopId := shop; f_branchId := branch; f_status := None; f_limit := lim |} d.
Proof.
  intros shop branch st lim d f unlimited.
  split; [|split; [|split; [|split; [|split]]]].
  - intros r. unfold unlimited, getPaymentRequests_rows, apply_limit, request_conditions,
      status_cond. cbn [f_shopId f_branchId f_status f_limit].
    rewrite order_desc_In, filter_In, !andb_true_iff. split.
    + intros [Hin [[Hs Hb] Hst]]. split; [exact Hin|]. split; [|split].
      * intros s ->. now apply N.eqb_eq.
      * intros b ->. now apply N.eqb_eq.
      * intros s ->. destruct (pr_status r), s; simpl in Hst; congruence.
    + intros [Hin [Hs [Hb Hst]]]. split; [exact Hin|]. split; [split|].
      * destruct shop as [s|]; [|reflexivity]. apply N.eqb_eq. now apply Hs.
      * destruct branch as [b|]; [|reflexivity]. apply N.eqb_eq. now apply Hb.
      * destruct st as [[|s]|]; try reflexivity. rewrite (Hst s eq_refl).
        destruct s; reflexivity.
  - unfold getPaymentRequests_rows, apply_limit, f. cbn [f_limit].
    destruct lim as [[|n]|]; try apply StronglySorted_firstn; apply order_desc_sorted.
  - unfold unlimited, getPaymentRequests_rows, apply_limit, f. cbn [f_limit].
    destruct lim as [[|n]|]; reflexivity.
  - intros n ->. unfold unlimited, getPaymentRequests_rows, apply_limit, f. cbn [f_limit].
    apply length_firstn.
  - unfold unlimited, getPaymentRequests_rows, apply_limit, order_desc. cbn [f_limit].
    rewrite sort_by_length. reflexivity.
  - reflexivity.
Qed.

(* ================================================================== *)
(** ** Counts and dashboard statistics *)

Lemma filter_length_map {A} (p : A -> bool) (f : A -> A) (l : list A) :
  (forall x, p (f x) = p x) ->
  List.length (List.filter p (List.map f l)) = List.length (List.filter p l).
Proof.
  intros H. induction l as [|x l IH]; simpl; [reflexivity|].
  rewrite H. destruct (p x); simpl; now rewrite IH.
Qed.

(** X9.  The count of unidentified messages is the length of the
    unidentified listing, for whatever shops the two are asked.  A message
    the webhook accepts raises it by one; a dismissal, whether or not its
    storage calls are rejected, leaves it as it is. *)
Theorem unidentified_count_tracks_listing :
  forall (shopA shopB : option Id) (w : World),
    getUnidentifiedCount_value shopA (db w)
    = Z.of_nat (List.length (getUnidentifiedSms_rows shopB (db w)))
    /\ (forall hashToken req now,
          status (fst (post_sms_webhook hashToken req now w)) = 200 ->
          getUnidentifiedCount_value shopA (db (snd (post_sms_webhook hashToken req now w)))
          = getUnidentifiedCount_value shopB (db w) + 1)
    /\ (forall user id now,
          getUnidentifiedCount_value shopA (db (snd (post_sms_dismiss user id now w)))
          = getUnidentifiedCount_value shopB (db w)).
Proof.
  intros shopA shopB w. split; [|split].
  - unfold getUnidentifiedCount_value, getUnidentifiedSms_rows, order_desc.
    now rewrite sort_by_length.
  - intros hashToken req now Hok.
    destruct (webhook_outcome hashToken req now w) as [[_ Hne]|[data [device [_ H]]]];
      [contradiction|].
    destruct H as [[_ H500]|[m [Hm [Hdb _]]]].
    + rewrite H500 in Hok. discriminate Hok.
    + rewrite Hdb. apply createSmsInbox_row_new in Hm. destruct Hm as [Hm _].
      unfold getUnidentifiedCount_value, add_smsInbox, seen, with_devices.
      cbn [smsInbox]. rewrite filter_app, length_app. cbn [List.filter].
      rewrite Hm. cbn [insert_of_signal ins_matchedRequestId is_null List.length]. lia.
  - intros user id now. destruct (dismiss_writes user id now w) as [[E|E] _];
      unfold getUnidentifiedCount_value; rewrite E; [reflexivity|].
    unfold update_where. rewrite filter_length_map; [reflexivity|].
    intros x. destruct (N.eqb (sms_id x) id); reflexivity.
Qed.

Lemma with_status_partition (l : list PaymentRequest) :
  (List.length (with_status Pending l) + List.length (with_status Paid l)
   + List.length (with_status Unidentified l) + List.length (with_status Partial l)
   + List.length (with_status Expired l))%nat
  = List.length l.
Proof.
  unfold with_status. induction l as [|r l IH]; simpl; [reflexivity|].
  destruct (pr_status r); simpl; lia.
Qed.

Lemma sum_amounts_from (l : list PaymentRequest) (a : Z) :
  fold_left (fun sum r => sum + amountCents r) l a = a + sum_amounts l.
Proof.
  unfold sum_amounts. revert a. induction l as [|r l IH]; intros a; cbn [fold_left].
  - lia.
  - rewrite (IH (a + amountCents r)), (IH (0 + amountCents r)). lia.
Qed.

Lemma sum_amounts_cons (r : PaymentRequest) (l : list PaymentRequest) :
  sum_amounts (r :: l) = amountCents r + sum_amounts l.
Proof.
  unfold sum_amounts at 1. cbn [fold_left]. rewrite sum_amounts_from. lia.
Qed.

(** X10.  The dashboard figures of a shop.  The three counts are counts of
    payment requests, not of messages, are not negative and together do not
    exceed the total; the requests counted by none of them are the partial
    and expired ones.  The rate is 0 when nothing is paid, is never computed
    with a zero total, and lies between 0 and 100.  The figures depend on
    the payment requests alone: messages, payments and devices do not enter
    them, and the average time to match is always 0. *)
Theorem dashboard_figures :
  forall (shopId : Id) (d : Db),
    let s := getDashboardStats_value shopId d in
    let own := List.filter (fun r => N.eqb (pr_shopId r) shopId) (paymentRequests d) in
    0 <= pendingCount s /\ 0 <= paidCount s /\ 0 <= unidentifiedCount s
    /\ pendingCount s + paidCount s + unidentifiedCount s
       + count (with_status Partial own) + count (with_status Expired own)
       = totalRequests s
    /\ (paidCount s = 0 -> autoMatchRate s = 0%Q)
    /\ (0 < paidCount s -> 0 < totalRequests s)
    /\ (0 <= autoMatchRate s)%Q /\ (autoMatchRate s <= 100)%Q
    /\ avgTimeToMatch s = 0
    /\ (forall d', paymentRequests d' = paymentRequests d ->
                   getDashboardStats_value shopId d' = s).
Proof.
  intros shopId d s own.
  assert (Hpart := with_status_partition own).
  assert (Hs : s = getDashboardStats_value shopId d) by reflexivity.
  unfold getDashboardStats_value in Hs. fold own in Hs.
  unfold count in *.
  set (np := List.length (with_status Pending own)) in *.
  set (nq := List.length (with_status Paid own)) in *.
  set (nu := List.length (with_status Unidentified own)) in *.
  set (nt := List.length own) in *.
  rewrite Hs. cbn [pendingCount paidCount unidentifiedCount totalRequests autoMatchRate
                   avgTimeToMatch].
  split; [lia|]. split; [lia|]. split; [lia|]. split; [lia|].
  split; [|split; [lia|split; [|split; [|split]]]].
  - intros ->. reflexivity.
  - destruct (Z.ltb_spec 0 (Z.of_nat nq)) as [Hp|Hp]; [|apply Qle_refl].
    assert (Ht : 0 < Z.of_nat nt) by lia.
    destruct (Z.of_nat nt) as [|t|t] eqn:Et; try lia.
    destruct (Z.of_nat nq) as [|q|q] eqn:Eq; try lia.
    unfold Qle. cbn. lia.
  - destruct (Z.ltb_spec 0 (Z.of_nat nq)) as [Hp|Hp]; [|unfold Qle; cbn; lia].
    assert (Ht : Z.of_nat nq <= Z.of_nat nt) by lia.
    destruct (Z.of_nat nt) as [|t|t] eqn:Et; try lia.
    destruct (Z.of_nat nq) as [|q|q] eqn:Eq; try lia.
    unfold Qle. cbn. lia.
  - reflexivity.
  - intros d' E. subst s. unfold getDashboardStats_value. rewrite E. reflexivity.
Qed.

Lemma sum_amounts_app (a b : list PaymentRequest) :
  sum_amounts (a ++ b) = sum_amounts a + sum_amounts b.
Proof.
  induction a as [|r a IH]; [unfold sum_amounts at 2; simpl; lia|].
  rewrite <- app_comm_cons, !sum_amounts_cons, IH. lia.
Qed.

Lemma update_where_Forall {A} (p : A -> bool) (f : A -> A) (l : list A) :
  Forall (fun x => p x = false) l -> update_where p f l = l.
Proof.
  unfold update_where. induction 1 as [|x l Hx _ IH]; simpl; [reflexivity|].
  now rewrite Hx, IH.
Qed.

(** With unique ids, the row a lookup by id finds is the only one of its id. *)
Lemma find_unique_split (prid : Id) (l : list PaymentRequest) (q : PaymentRequest) :
  NoDup (List.map pr_id l) ->
  List.find (fun x => N.eqb (pr_id x) prid) l = Some q ->
  exists l1 l2,
    l = l1 ++ q :: l2 /\ pr_id q = prid
    /\ Forall (fun x => N.eqb (pr_id x) prid = false) l1
    /\ Forall (fun x => N.eqb (pr_id x) prid = false) l2.
Proof.
  induction l as [|x l IH]; simpl; [discriminate|].
  intros Hnd Hf. apply NoDup_cons_iff in Hnd. destruct Hnd as [Hx Hnd].
  destruct (N.eqb (pr_id x) prid) eqn:E.
  - injection Hf as ->. apply N.eqb_eq in E. exists [], l.
    split; [reflexivity|]. split; [exact E|]. split; [constructor|].
    rewrite Forall_forall. intros y Hy. apply N.eqb_neq. intros Ey.
    apply Hx. rewrite E, <- Ey. now apply in_map.
  - destruct (IH Hnd Hf) as [l1 [l2 [-> [Hq [H1 H2]]]]].
    exists (x :: l1), l2. split; [reflexivity|]. split; [exact Hq|].
    split; [constructor; assumption|exact H2].
Qed.

Lemma settled_rows (prid : Id) (now : Date) (l1 l2 : list PaymentRequest) (q : PaymentRequest) :
  pr_id q = prid ->
  Forall (fun x => N.eqb (pr_id x) prid = false) l1 ->
  Forall (fun x => N.eqb (pr_id x) prid = false) l2 ->
  update_where (fun r => N.eqb (pr_id r) prid) (set_paid now) (l1 ++ q :: l2)
  = l1 ++ set_paid now q :: l2.
Proof.
  intros Hq H1 H2.
  pose proof (update_where_Forall _ (set_paid now) _ H1) as E1.
  pose proof (update_where_Forall _ (set_paid now) _ H2) as E2.
  unfold update_where in *. rewrite map_app. cbn [List.map].
  rewrite E1, E2, Hq, N.eqb_refl. reflexivity.
Qed.

(** The figures of a shop once the pending request [q] is set to paid. *)
Lemma stats_after_settled (shopId : Id) (now : Date) (l1 l2 : list PaymentRequest)
    (q : PaymentRequest) (d d' : Db) :
  paymentRequests d = l1 ++ q :: l2 ->
  paymentRequests d' = l1 ++ set_paid now q :: l2 ->
  pr_status q = Pending ->
  let s := getDashboardStats_value shopId d in
  let s' := getDashboardStats_value shopId d' in
  if N.eqb (pr_shopId q) shopId
  then totalRequests s' = totalRequests s
       /\ pendingCount s' = pendingCount s - 1
       /\ paidCount s' = paidCount s + 1
       /\ unidentifiedCount s' = unidentifiedCount s
       /\ totalAmountCents s' = totalAmountCents s - amountCents q
       /\ paidAmountCents s' = paidAmountCents s + amountCents q
  else s' = s.
Proof.
  intros E E' Hst s s'. subst s s'. unfold getDashboardStats_value. rewrite E, E'.
  rewrite !filter_app. cbn [List.filter pr_shopId set_paid].
  destruct (N.eqb (pr_shopId q) shopId); [|reflexivity].
  cbn [totalRequests pendingCount paidCount unidentifiedCount totalAmountCents
       paidAmountCents].
  unfold with_status, count. rewrite !filter_app. cbn [List.filter pr_status set_paid].
  rewrite Hst. cbn [status_eqb].
  rewrite !sum_amounts_app, !length_app. cbn [List.length].
  rewrite !sum_amounts_cons. cbn [amountCents set_paid].
  repeat split; lia.
Qed.

(** X11.  What a settlement does to the dashboard.  When ids are unique and
    a manual match or a payment verification succeeds on a request that was
    pending, the figures of the request's shop change by exactly that
    request: one pending request fewer and one paid request more, the same
    total, its amount moved from the pending sum to the paid sum.  The
    figures of every other shop stay as they were. *)
Theorem dashboard_after_settlement :
  forall (prid : Id) (now : Date) (w : World) (q : PaymentRequest) (d' : Db),
    no_faults w ->
    NoDup (List.map pr_id (paymentRequests (db w))) ->
    List.find (fun x => N.eqb (pr_id x) prid) (paymentRequests (db w)) = Some q ->
    pr_status q = Pending ->
    (exists user id note' nonce,
        fst (post_sms_manual_match user id prid note' nonce now w)
        = json (Message "Match successful")
        /\ d' = db (snd (post_sms_manual_match user id prid note' nonce now w)))
    \/ (exists user data p,
          vp_paymentRequestId data = prid
          /\ fst (post_payments_verify user (Some data) now w) = json (PaymentBody p)
          /\ d' = db (snd (post_payments_verify user (Some data) now w))) ->
    forall shopId,
      let s := getDashboardStats_value shopId (db w) in
      let s' := getDashboardStats_value shopId d' in
      if N.eqb (pr_shopId q) shopId
      then totalRequests s' = totalRequests s
           /\ pendingCount s' = pendingCount s - 1
           /\ paidCount s' = paidCount s + 1
           /\ unidentifiedCount s' = unidentifiedCount s
           /\ totalAmountCents s' = totalAmountCents s - amountCents q
           /\ paidAmountCents s' = paidAmountCents s + amountCents q
      else s' = s.
Proof.
  intros prid now w q d' Hw Hnd Hq Hst Hd' shopId.
  destruct (find_unique_split prid _ q Hnd Hq) as [l1 [l2 [E [Hid [H1 H2]]]]].
  apply (stats_after_settled shopId now l1 l2 q (db w) d' E); [|exact Hst].
  rewrite <- (settled_rows prid now l1 l2 q Hid H1 H2), <- E.
  destruct Hd' as [[user [id [note' [nonce [Hok ->]]]]]|[user [data [p [Hp [Hok ->]]]]]];
    revert Hok.
  - rewrite (manual_match_no_faults user id prid note' nonce now w Hw).
    destruct (List.find (fun x => N.eqb (sms_id x) id) (smsInbox (db w))) as [m|];
      [|discriminate].
    rewrite Hq.
    destruct (createPayment_row _ _) as [p|]; [|discriminate].
    intros _. reflexivity.
  - rewrite (verify_no_faults user data now w Hw). rewrite Hp, Hq.
    destruct (getPaymentByTransactionId_row _ _); [discriminate|].
    destruct (createPayment_row _ _) as [p'|]; [|discriminate].
    intros _. reflexivity.
Qed.

Lemma dashboard_after_settlement_witness :
  no_faults {| db := ManualExample.before; faults := [] |}
  /\ pendingCount
       (getDashboardStats_value (pr_shopId ManualExample.request)
          (db (snd (post_sms_manual_match Example.user 100%N 10%N None (lit "a1b2c3d4") 3000
                      {| db := ManualExample.before; faults := [] |}))))
     = pendingCount
         (getDashboardStats_value (pr_shopId ManualExample.request) ManualExample.before) - 1.
Proof.
  split; [reflexivity|].
  pose proof (dashboard_after_settlement 10%N 3000
                {| db := ManualExample.before; faults := [] |} ManualExample.request
                (db (snd (post_sms_manual_match Example.user 100%N 10%N None
                            (lit "a1b2c3d4") 3000
                            {| db := ManualExample.before; faults := [] |})))
                eq_refl) as H.
  assert (Hnd : NoDup (List.map pr_id (paymentRequests
                  (db {| db := ManualExample.before; faults := [] |})))).
  { repeat constructor. simpl. tauto. }
  specialize (H Hnd eq_refl eq_refl).
  assert (Hd : (exists user id note' nonce,
                  fst (post_sms_manual_match user id 10%N note' nonce 3000
                         {| db := ManualExample.before; faults := [] |})
                  = json (Message "Match successful")
                  /\ db (snd (post_sms_manual_match Example.user 100%N 10%N None
                                (lit "a1b2c3d4") 3000
                                {| db := ManualExample.before; faults := [] |}))
                     = db (snd (post_sms_manual_match user id 10%N note' nonce 3000
                                  {| db := ManualExample.before; faults := [] |})))
               \/ (exists user data p,
                      vp_paymentRequestId data = 10%N
                      /\ fst (post_payments_verify user (Some data) 3000
                                {| db := ManualExample.before; faults := [] |})
                         = json (PaymentBody p)
                      /\ db (snd (post_sms_manual_match Example.user 100%N 10%N None
                                    (lit "a1b2c3d4") 3000
                                    {| db := ManualExample.before; faults := [] |}))
                         = db (snd (post_payments_verify user (Some data) 3000
                                      {| db := ManualExample.before; faults := [] |})))).
  { left. exists Example.user, 100%N, None, (lit "a1b2c3d4"). split; reflexivity. }
  specialize (H Hd (pr_shopId ManualExample.request)).
  cbv beta zeta in H. rewrite N.eqb_refl in H.
  exact (proj1 (proj2 H)).
Defined.

(* ================================================================== *)
(** ** Devices *)









(* ================================================================== *)
(** ** The bearer token of a request *)

Lemma split_aux_field (sep : N) (cur a : js_string) :
  Forall (fun c => c <> sep) a ->
  split_aux sep cur a = [rev cur ++ a].
Proof.
  intros H. revert cur. induction H as [|c a Hc _ IH]; intros cur; cbn [split_aux].
  - now rewrite app_nil_r.
  - destruct (N.eqb_spec c sep) as [E|_]; [contradiction|].
    rewrite IH. cbn [rev]. now rewrite <- app_assoc.
Qed.

Lemma split_aux_sep (sep : N) (cur a b : js_string) :
  Forall (fun c => c <> sep) a ->
  split_aux sep cur (a ++ sep :: b) = (rev cur ++ a) :: split_aux sep [] b.
Proof.
  intros H. revert cur. induction H as [|c a Hc _ IH]; intros cur; cbn [split_aux app].
  - now rewrite N.eqb_refl, app_nil_r.
  - destruct (N.eqb_spec c sep) as [E|_]; [contradiction|].
    rewrite IH. cbn [rev]. now rewrite <- app_assoc.
Qed.

(** X14.  The token [authenticateToken] verifies is the second
    space-separated field of the [authorization] header, whatever the first
    field says: the scheme word is not checked, and anything after a second
    space is dropped.  A header that is missing, empty or without a space,
    or whose second field is empty, is answered 401 before any
    verification; otherwise the answer is 403 exactly when verification
    fails.  The header the client builds for a stored token without a space
    carries that token. *)
Theorem authenticateToken_reads_second_field :
  forall (verify : js_string -> option AuthUser) (scheme token : js_string),
    Forall (fun c => c <> cu " ") scheme ->
    Forall (fun c => c <> cu " ") token ->
    (forall rest,
        authenticateToken verify (Some (scheme ++ cu " " :: token))
        = authenticateToken verify (Some (scheme ++ cu " " :: token ++ cu " " :: rest)))
    /\ authenticateToken verify (Some (scheme ++ cu " " :: token))
       = match token with
         | [] => Rejected 401 "Access token required"
         | _ :: _ => match verify token with
                     | Some user => Next user
                     | None => Rejected 403 "Invalid or expired token"
                     end
         end
    /\ authenticateToken verify (Some scheme) = Rejected 401 "Access token required"
    /\ authenticateToken verify None = Rejected 401 "Access token required"
    /\ authenticateToken verify (client_authorization (Some token))
       = authenticateToken verify (Some (lit "Bearer " ++ token)).
Proof.
  intros verify scheme token Hs Ht.
  assert (H1 : forall rest,
             header_token (Some (scheme ++ cu " " :: token ++ cu " " :: rest))
             = match token with [] => None | _ :: _ => Some token end).
  { intros rest. unfold header_token, split.
    destruct (scheme ++ cu " " :: token ++ cu " " :: rest) eqn:E;
      [destruct scheme; discriminate E|]. rewrite <- E.
    rewrite (split_aux_sep _ [] scheme _ Hs), (split_aux_sep _ [] token rest Ht).
    cbn [nth_error rev app]. destruct token; reflexivity. }
  assert (H2 : header_token (Some (scheme ++ cu " " :: token))
               = match token with [] => None | _ :: _ => Some token end).
  { unfold header_token, split.
    destruct (scheme ++ cu " " :: token) eqn:E; [destruct scheme; discriminate E|].
    rewrite <- E.
    rewrite (split_aux_sep _ [] scheme _ Hs), (split_aux_field _ [] token Ht).
    cbn [nth_error rev app]. destruct token; reflexivity. }
  split; [|split; [|split; [|split]]].
  - intros rest. unfold authenticateToken. now rewrite H1, H2.
  - unfold authenticateToken. rewrite H2. destruct token; reflexivity.
  - unfold authenticateToken, header_token, split.
    destruct scheme as [|c s]; [reflexivity|].
    rewrite (split_aux_field _ [] (c :: s) Hs). reflexivity.
  - reflexivity.
  - unfold client_authorization. destruct token as [|c t]; [|reflexivity].
    reflexivity.
Qed.

Lemma authenticateToken_reads_second_field_witness :
  Forall (fun c => c <> cu " ") (lit "Basic")
  /\ authenticateToken (fun t => if str_eqb t (lit "abc") then Some Example.user else None)
       (Some (lit "Basic abc"))
     = Next Example.user.
Proof.
  assert (Hs : Forall (fun c => c <> cu " ") (lit "Basic"))
    by (repeat constructor; cbv; discriminate).
  assert (Ht : Forall (fun c => c <> cu " ") (lit "abc"))
    by (repeat constructor; cbv; discriminate).
  split; [exact Hs|].
  exact (proj1 (proj2 (authenticateToken_reads_second_field
                         (fun t => if str_eqb t (lit "abc") then Some Example.user else None)
                         (lit "Basic") (lit "abc") Hs Ht))).
Defined.

(* ================================================================== *)
(** ** What the webhook stores *)

Lemma to_int4_whole (z : Z) : to_int4 (JNum (inject_Z z)) = if int4 z then Some z else None.
Proof.
  unfold to_int4. rewrite Qfloor_Z.
  replace (Qeq_bool (inject_Z z) (inject_Z z)) with true; [reflexivity|].
  symmetry. apply Qeq_bool_iff. reflexivity.
Qed.

(** The column value and the confidence of a parsed amount that the table
    accepts. *)
Lemma amount_column_parsed (text : js_string) (a : option Z) :
  amount_column (parsedAmount text) = Some a ->
  match a with
  | None => parsedAmount text = None
  | Some z => 0 <= z <= 2147483647 /\ parsedAmount text = Some (JNum (inject_Z z))
  end
  /\ Parser.parseConfidence (parsedAmount text) = if truthy_int a then 80 else 50.
Proof.
  unfold amount_column, Parser.parseConfidence.
  destruct (parsedAmount_shape text) as [H | [H | [z [Hz H]]]]; rewrite H.
  - intros [= <-]. split; reflexivity.
  - discriminate.
  - rewrite to_int4_whole, truthy_whole.
    destruct (int4 z) eqn:I; [|discriminate]. intros [= <-].
    unfold int4 in I. apply andb_true_iff in I. destruct I as [_ I]. apply Z.leb_le in I.
    split; [split; [lia|reflexivity]|reflexivity].
Qed.



(** X16.  A message whose parsed fields the inbox table cannot hold is
    lost.  When the gate is passed and no storage call is rejected, but the
    amount read from the text is NaN or above 2147483647 minor units, the
    reference is longer than 50 characters, or the time of receipt is no
    date, the answer is 500 and no message is stored, while the device's
    last-seen time is updated all the same. *)
Theorem webhook_drops_unstorable_message :
  forall (hashToken : js_string -> js_string) (req : WebhookRequest)
         (data : SmsWebhookInput) (device : Device) (now : Date) (w : World),
    no_faults w ->
    gate_passes hashToken req (db w) data device ->
    sig_amount (parse (text data)) = Some JNaN
    \/ (exists z, 2147483647 < z /\ sig_amount (parse (text data)) = Some (JNum (inject_Z z)))
    \/ (exists utr, sig_utr (parse (text data)) = Some utr /\ (50 < List.length utr)%nat)
    \/ wh_receivedAt data = None ->
    let r := post_sms_webhook hashToken req now w in
    fst r = fail 500 "Failed to process SMS"
    /\ smsInbox (db (snd r)) = smsInbox (db w)
    /\ devices (db (snd r)) = devices (seen device now (db w)).
Proof.
  intros hashToken req data device now w Hw [Hb [Hf [[token [Ht Hh]] Hr]]] Hbad r.
  unfold r. clear r.
  rewrite (webhook_no_faults hashToken req data now w Hb Hw), Ht, Hf.
  replace (negb (str_eqb (webhookTokenHash device) (hashToken token))
           || is_some (revokedAt device)) with false
    by (symmetry; apply gate_condition; split; assumption).
  assert (C : createSmsInbox_row (insert_of_signal device data) (seen device now (db w))
              = None).
  { unfold createSmsInbox_row.
    cbn [insert_of_signal ins_receivedAt ins_parsedAmountCents ins_parsedUtr].
    destruct (wh_receivedAt data) as [t|]; [|reflexivity].
    destruct Hbad as [E | [[z [Hz E]] | [[utr [E Hl]] | E]]].
    - rewrite E. reflexivity.
    - rewrite E. unfold amount_column. rewrite to_int4_whole. unfold int4.
      replace (z <=? 2147483647) with false by (symmetry; apply Z.leb_gt; lia).
      rewrite andb_false_r. reflexivity.
    - rewrite E. cbn [varchar_opt]. unfold varchar.
      replace (Nat.leb (List.length utr) 50) with false
        by (symmetry; apply Nat.leb_gt; lia).
      destruct (amount_column _); reflexivity.
    - discriminate E. }
  rewrite C. cbn [fst snd db]. split; [reflexivity|]. split; reflexivity.
Qed.

Lemma webhook_drops_unstorable_message_witness :
  no_faults (Example.world [] [])
  /\ fst (post_sms_webhook Example.hash
            {| x_webhook_token := Some (lit "secret"); authorization := None;
               wh_body := Some {| deviceId := lit "device-1"; from := lit "BANK";
                                  text := lit "Rs ,"; wh_receivedAt := Some 1000 |} |}
            2000 (Example.world [] []))
     = fail 500 "Failed to process SMS".
Proof.
  split; [reflexivity|].
  refine (proj1 (webhook_drops_unstorable_message Example.hash
                   {| x_webhook_token := Some (lit "secret"); authorization := None;
                      wh_body := Some {| deviceId := lit "device-1"; from := lit "BANK";
                                         text := lit "Rs ,"; wh_receivedAt := Some 1000 |} |}
                   {| deviceId := lit "device-1"; from := lit "BANK";
                      text := lit "Rs ,"; wh_receivedAt := Some 1000 |}
                   Example.device 2000 (Example.world [] []) eq_refl _ _)).
  - split; [reflexivity|]. split; [reflexivity|]. split; [|reflexivity].
    exists (lit "secret"). split; reflexivity.
  - left. reflexivity.
Defined.

(* ================================================================== *)
(** ** The audit log *)

Ltac both_runs H1 H2 := run_call H1; run_call H2.

Ltac same_runs H1 H2 :=
  match goal with
  | |- same_but_audit _ ?a ?b =>
      subst a b; unfold same_but_audit; cbn; repeat split; reflexivity
  end.

(** X17.  A failure to write the audit log is swallowed.  For each handler
    that logs (manual match, payment verification, dismissal, device
    registration and revocation): when the write of the audit log is the
    one storage call that is rejected, the answer and every table are what
    they are when nothing is rejected; the audit log alone is left without
    its entry. *)
Theorem audit_failure_is_swallowed :
  forall (user : AuthUser) (now : Date) (d : Db),
    let served := {| db := d; faults := [] |} in
    let unlogged n := {| db := d; faults := audit_rejected n |} in
    (forall id prid note' nonce,
        same_but_audit d (post_sms_manual_match user id prid note' nonce now served)
          (post_sms_manual_match user id prid note' nonce now (unlogged 6%nat)))
    /\ (forall data,
          same_but_audit d (post_payments_verify user (Some data) now served)
            (post_payments_verify user (Some data) now (unlogged 5%nat)))
    /\ (forall id,
          same_but_audit d (post_sms_dismiss user id now served)
            (post_sms_dismiss user id now (unlogged 1%nat)))
    /\ (forall hashToken uuid token,
          same_but_audit d (post_devices_register hashToken user true uuid token served)
            (post_devices_register hashToken user true uuid token (unlogged 1%nat)))
    /\ (forall id,
          same_but_audit d (post_devices_revoke user id now served)
            (post_devices_revoke user id now (unlogged 1%nat))).
Proof.
  intros user now d served unlogged. unfold served, unlogged, audit_rejected.
  cbn [repeat app]. clear served unlogged.
  split; [|split; [|split; [|split]]].
  - intros id prid note' nonce.
    remember (post_sms_manual_match user id prid note' nonce now {| db := d; faults := [] |})
      as R1 eqn:H1.
    remember (post_sms_manual_match user id prid note' nonce now
                {| db := d; faults := [false; false; false; false; false; false; true] |})
      as R2 eqn:H2.
    unfold post_sms_manual_match, try_catch, getSmsInbox, getPaymentRequest,
      updateSmsInbox, createPayment, updatePaymentRequest, createMatchHistory in H1, H2.
    both_runs H1 H2.
    destruct (List.find _ (smsInbox d)) as [m|]; [|same_runs H1 H2].
    both_runs H1 H2.
    destruct (List.find _ (paymentRequests d)) as [q|]; [|same_runs H1 H2].
    both_runs H1 H2. both_runs H1 H2.
    destruct (createPayment_row _ _) as [p|]; [|same_runs H1 H2].
    repeat both_runs H1 H2. same_runs H1 H2.
  - intros data.
    remember (post_payments_verify user (Some data) now {| db := d; faults := [] |})
      as R1 eqn:H1.
    remember (post_payments_verify user (Some data) now
                {| db := d; faults := [false; false; false; false; false; true] |})
      as R2 eqn:H2.
    unfold post_payments_verify, try_catch, getPaymentRequest, getPaymentByTransactionId,
      createPayment, updatePaymentRequest, createMatchHistory in H1, H2.
    both_runs H1 H2.
    destruct (List.find _ (paymentRequests d)) as [q|]; [|same_runs H1 H2].
    both_runs H1 H2.
    destruct (getPaymentByTransactionId_row _ d) as [e|]; [same_runs H1 H2|].
    both_runs H1 H2.
    destruct (createPayment_row _ d) as [p|]; [|same_runs H1 H2].
    repeat both_runs H1 H2. same_runs H1 H2.
  - intros id.
    remember (post_sms_dismiss user id now {| db := d; faults := [] |}) as R1 eqn:H1.
    remember (post_sms_dismiss user id now {| db := d; faults := [false; true] |})
      as R2 eqn:H2.
    unfold post_sms_dismiss, try_catch, updateSmsInbox in H1, H2.
    repeat both_runs H1 H2. same_runs H1 H2.
  - intros hashToken uuid token.
    remember (post_devices_register hashToken user true uuid token
                {| db := d; faults := [] |}) as R1 eqn:H1.
    remember (post_devices_register hashToken user true uuid token
                {| db := d; faults := [false; true] |}) as R2 eqn:H2.
    unfold post_devices_register, guarded, createDevice in H1, H2.
    both_runs H1 H2.
    destruct (createDevice_row _ d) as [x|]; [|same_runs H1 H2].
    both_runs H1 H2. same_runs H1 H2.
  - intros id.
    remember (post_devices_revoke user id now {| db := d; faults := [] |}) as R1 eqn:H1.
    remember (post_devices_revoke user id now {| db := d; faults := [false; true] |})
      as R2 eqn:H2.
    unfold post_devices_revoke, guarded, updateDevice in H1, H2.
    repeat both_runs H1 H2. same_runs H1 H2.
Qed.

(* ================================================================== *)
(** ** From the webhook to the candidates *)

Lemma find_none_iff {A} (p : A -> bool) (l : list A) :
  (forall x, In x l -> p x = false) -> List.find p l = None.
Proof.
  induction l as [|x l IH]; intros H; simpl; [reflexivity|].
  rewrite (H x (or_introl eq_refl)). apply IH. intros y Hy. apply H. now right.
Qed.

(** X18.  A forwarded message finds its request.  When no storage call is
    rejected and the webhook accepts a message from whose text the amount
    [a], not zero, was read, the candidate query for the id the webhook
    returned lists, with score 100, every pending request of the user's
    shop whose amount is [a].  (The id of a new row is one no row of the
    inbox has.) *)
Theorem forwarded_message_finds_request :
  forall (hashToken : js_string -> js_string) (req : WebhookRequest)
         (data : SmsWebhookInput) (now : Date) (w : World)
         (user : AuthUser) (a : Z) (q : PaymentRequest),
    no_faults w ->
    (forall x, In x (smsInbox (db w)) -> sms_id x <> next_id (db w)) ->
    wh_body req = Some data ->
    status (fst (post_sms_webhook hashToken req now w)) = 200 ->
    sig_amount (parse (text data)) = Some (JNum (inject_Z a)) -> a <> 0 ->
    In q (paymentRequests (db w)) -> pr_status q = Pending ->
    (forall shop, user_shopId user = Some shop -> pr_shopId q = shop) ->
    amountCents q = a ->
    exists id cs,
      fst (post_sms_webhook hashToken req now w) = json (SmsReceived id)
      /\ fst (get_sms_candidates user id (snd (post_sms_webhook hashToken req now w)))
         = json (CandidateList cs)
      /\ In {| cand_request := q; cand_score := 100 |} cs.
Proof.
  intros hashToken req data now w user a q Hw Hfresh Hb Hok Ha Hnz Hq Hst Hshop Hamt.
  revert Hok. rewrite (webhook_no_faults hashToken req data now w Hb Hw).
  destruct (presented_token req) as [token|]; [|discriminate].
  destruct (List.find _ (devices (db w))) as [device|]; [|discriminate].
  destruct (negb _ || _); [discriminate|].
  destruct (createSmsInbox_row (insert_of_signal device data) (seen device now (db w)))
    as [m|] eqn:C; [|discriminate].
  intros _. cbn [fst snd].
  assert (Hm : sms_id m = next_id (db w) /\ parsedAmountCents m = Some a).
  { unfold createSmsInbox_row in C.
    cbn [insert_of_signal ins_receivedAt ins_parsedAmountCents ins_parsedUtr] in C.
    destruct (wh_receivedAt data); [|discriminate].
    rewrite Ha in C. unfold amount_column in C. rewrite to_int4_whole in C.
    destruct (int4 a); [|discriminate].
    destruct (varchar_opt _ _); [|discriminate].
    injection C as <-. split; reflexivity. }
  destruct Hm as [Hid Hpa].
  exists (sms_id m). eexists. split; [reflexivity|].
  unfold get_sms_candidates, try_catch, getSmsInbox, getPaymentRequests.
  rewrite bind_query_ok by reflexivity. cbn [db smsInbox add_smsInbox].
  rewrite (find_app_none (fun x => N.eqb (sms_id x) (sms_id m)) (smsInbox (seen device now (db w))) m).
  - rewrite bind_query_ok by reflexivity. cbn [fst ret]. split; [reflexivity|].
    apply score_candidates_In. cbn [cand_request cand_score]. split; [|split; [|lia]].
    + apply pending_rows_In. split; [exact Hq|]. split; assumption.
    + pose proof (match_score_cases m q) as Hc. rewrite Hpa in Hc.
      destruct a as [|a|a]; [contradiction| |]; destruct Hc as [Hc _];
        symmetry; apply Hc; exact Hamt.
  - apply find_none_iff. intros x Hx. apply N.eqb_neq. rewrite Hid.
    apply Hfresh. exact Hx.
  - apply N.eqb_refl.
Qed.

Lemma forwarded_message_finds_request_witness :
  no_faults WebhookExample.before
  /\ exists id cs,
       fst (post_sms_webhook Example.hash WebhookExample.request 2000 WebhookExample.before)
       = json (SmsReceived id)
       /\ fst (get_sms_candidates Example.user id
                 (snd (post_sms_webhook Example.hash WebhookExample.request 2000
                         WebhookExample.before)))
          = json (CandidateList cs)
       /\ In {| cand_request := Example.request 10 50000 9000 100; cand_score := 100 |} cs.
Proof.
  split; [reflexivity|].
  refine (forwarded_message_finds_request Example.hash WebhookExample.request
            WebhookExample.data 2000 WebhookExample.before Example.user 50000
            (Example.request 10 50000 9000 100) eq_refl _ eq_refl eq_refl eq_refl _
            (or_introl eq_refl) eq_refl _ eq_refl).
  - intros x Hx. destruct Hx.
  - discriminate.
  - intros shop H. injection H as <-. reflexivity.
Defined.

(* ================================================================== *)
(** ** An invariant of the inbox *)

Lemma createSmsInbox_row_consistent (device : Device) (data : SmsWebhookInput) (d : Db)
    (m : SmsInbox) :
  createSmsInbox_row (insert_of_signal device data) d = Some m -> confidence_consistent m.
Proof.
  unfold createSmsInbox_row.
  cbn [insert_of_signal ins_receivedAt ins_parsedAmountCents ins_parsedUtr ins_deviceId
       ins_rawText ins_sender ins_parsedVpa ins_parseConfidence ins_matchedRequestId
       parse sig_amount sig_utr sig_vpa sig_confidence].
  destruct (wh_receivedAt data) as [t|]; [|discriminate].
  destruct (amount_column (parsedAmount (text data))) as [a|] eqn:Ea; [|discriminate].
  destruct (varchar_opt _ _); [|discriminate].
  intros [= <-]. apply amount_column_parsed in Ea. destruct Ea as [_ Ec].
  unfold confidence_consistent. cbn [Schema.parseConfidence parsedAmountCents].
  now rewrite Ec.
Qed.

(** The inbox after a manual match, whichever calls are rejected. *)
Lemma manual_match_inbox (user : AuthUser) (id prid : Id) (note' : option js_string)
    (nonce : js_string) (now : Date) (w : World) :
  let d' := db (snd (post_sms_manual_match user id prid note' nonce now w)) in
  smsInbox d' = smsInbox (db w) \/ smsInbox d' = smsInbox (matched_sms id prid now (db w)).
Proof.
  cbv zeta. destruct w as [d fs]. cbn [db].
  remember (post_sms_manual_match user id prid note' nonce now {| db := d; faults := fs |})
    as R eqn:HR.
  unfold post_sms_manual_match, try_catch, getSmsInbox, getPaymentRequest,
    updateSmsInbox, createPayment, updatePaymentRequest, createMatchHistory in HR.
  run_call HR. try next_fault_case HR; try (subst R; left; reflexivity).
  all: destruct (List.find _ (smsInbox d)) as [m|]; [|subst R; left; reflexivity].
  all: run_call HR; try next_fault_case HR; try (subst R; left; reflexivity).
  all: destruct (List.find _ (paymentRequests d)) as [q|]; [|subst R; left; reflexivity].
  all: run_call HR; try next_fault_case HR; try (subst R; left; reflexivity).
  all: run_call HR; try next_fault_case HR; try (subst R; right; reflexivity).
  all: destruct (createPayment_row _ _) as [p|]; [|subst R; right; reflexivity].
  all: repeat first [ run_call HR | next_fault_case HR ].
  all: subst R; right; reflexivity.
Qed.

(** The inbox is out of the reach of a payment verification. *)
Lemma verify_inbox (user : AuthUser) (body' : option VerifyPaymentInput) (now : Date)
    (w : World) :
  smsInbox (db (snd (post_payments_verify user body' now w))) = smsInbox (db w).
Proof.
  destruct w as [d fs]. cbn [db].
  remember (post_payments_verify user body' now {| db := d; faults := fs |}) as R eqn:HR.
  unfold post_payments_verify, try_catch, getPaymentRequest, getPaymentByTransactionId,
    createPayment, updatePaymentRequest, createMatchHistory in HR.
  destruct body' as [data|]; [|subst R; reflexivity].
  run_call HR. try next_fault_case HR; try (subst R; reflexivity).
  all: destruct (List.find _ (paymentRequests d)) as [q|]; [|subst R; reflexivity].
  all: run_call HR; try next_fault_case HR; try (subst R; reflexivity).
  all: destruct (getPaymentByTransactionId_row _ d) as [e|]; [subst R; reflexivity|].
  all: run_call HR; try next_fault_case HR; try (subst R; reflexivity).
  all: destruct (createPayment_row _ d) as [p|]; [|subst R; reflexivity].
  all: repeat first [ run_call HR | next_fault_case HR ].
  all: subst R; reflexivity.
Qed.

(** X19.  The confidence stored with a message agrees with its amount: 80
    when the amount is neither null nor zero, 50 otherwise.  If every
    message of the inbox has this property, every message still has it
    after any call of the webhook, the manual match, the dismissal or the
    payment verification, whichever storage calls are rejected. *)
Theorem inbox_confidence_invariant :
  forall (w : World),
    Forall confidence_consistent (smsInbox (db w)) ->
    (forall hashToken req now,
        Forall confidence_consistent
          (smsInbox (db (snd (post_sms_webhook hashToken req now w)))))
    /\ (forall user id prid note' nonce now,
          Forall confidence_consistent
            (smsInbox (db (snd (post_sms_manual_match user id prid note' nonce now w)))))
    /\ (forall user id now,
          Forall confidence_consistent (smsInbox (db (snd (post_sms_dismiss user id now w)))))
    /\ (forall user body' now,
          Forall confidence_consistent
            (smsInbox (db (snd (post_payments_verify user body' now w))))).
Proof.
  intros w Hinv.
  assert (Hupd : forall (p : SmsInbox -> bool) (f : SmsInbox -> SmsInbox),
             (forall m, parseConfidence (f m) = parseConfidence m
                        /\ parsedAmountCents (f m) = parsedAmountCents m) ->
             Forall confidence_consistent (update_where p f (smsInbox (db w)))).
  { intros p f Hf. rewrite Forall_forall in *. intros m Hm.
    apply update_where_In in Hm. destruct Hm as [x [Hx ->]].
    destruct (p x); [|now apply Hinv].
    specialize (Hinv x Hx). unfold confidence_consistent in *.
    destruct (Hf x) as [-> ->]. exact Hinv. }
  split; [|split; [|split]].
  - intros hashToken req now.
    destruct (webhook_outcome hashToken req now w)
      as [[-> _]|[data [device [_ [[-> _]|[m [Hm [-> _]]]]]]]].
    + exact Hinv.
    + exact Hinv.
    + cbn [smsInbox add_smsInbox seen with_devices]. apply Forall_app. split; [exact Hinv|].
      constructor; [|constructor]. eapply createSmsInbox_row_consistent; eassumption.
  - intros user id prid note' nonce now.
    destruct (manual_match_inbox user id prid note' nonce now w) as [-> | ->];
      [exact Hinv|].
    cbn [smsInbox matched_sms with_smsInbox]. apply Hupd. intros m. split; reflexivity.
  - intros user id now.
    destruct (dismiss_writes user id now w) as [[-> | ->] _]; [exact Hinv|].
    apply Hupd. intros m. split; reflexivity.
  - intros user body' now. rewrite verify_inbox. exact Hinv.
Qed.

Lemma inbox_confidence_invariant_witness :
  Forall confidence_consistent (smsInbox ManualExample.before)
  /\ Forall confidence_consistent
       (smsInbox (db (snd (post_sms_manual_match Example.user 100%N 10%N None
                             (lit "a1b2c3d4") 3000
                             {| db := ManualExample.before; faults := [] |})))).
Proof.
  assert (H : Forall confidence_consistent
                (smsInbox (db {| db := ManualExample.before; faults := [] |})))
    by (repeat constructor).
  split; [exact H|].
  exact (proj1 (proj2 (inbox_confidence_invariant
                         {| db := ManualExample.before; faults := [] |} H))
           Example.user 100%N 10%N None (lit "a1b2c3d4") 3000).
Defined.

(* ================================================================== *)
(** ** The dashboard route and the headers of the webhook *)

(** X20.  The dashboard route never writes.  For a user without a shop it
    answers all zeros without a storage call, so also when storage would
    reject one and whatever requests exist; for a user with a shop it
    answers the figures of that shop, or 500 when the one storage call is
    rejected. *)
Theorem dashboard_route_answers :
  forall (user : AuthUser) (w : World),
    db (snd (get_stats_dashboard user w)) = db w
    /\ match user_shopId user with
       | None => get_stats_dashboard user w = (Some no_stats, w)
       | Some shopId =>
           fst (get_stats_dashboard user w)
           = if hd false (faults w) then None
             else Some (getDashboardStats_value shopId (db w))
       end.
Proof.
  intros user w. unfold get_stats_dashboard, guarded.
  destruct (user_shopId user) as [shopId|]; [|split; reflexivity].
  unfold getDashboardStats.
  remember (bind (query (getDashboardStats_value shopId)) (fun stats => ret (Some stats)) w)
    as R eqn:HR.
  rewrite bind_query_step in HR. unfold rest_of in HR.
  destruct (hd false (faults w)); subst R; split; reflexivity.
Qed.

(** X21.  The webhook reads one header, and checks it first.  A
    non-empty [x-webhook-token] header is the one it reads, whatever
    [authorization] says; [authorization] is read when [x-webhook-token] is
    missing or empty.  With both missing or empty the answer is 401, and
    with a token but a malformed body it is 400; in both cases no storage
    call is made, so nothing is written even when storage would reject
    calls. *)
Theorem webhook_reads_one_header :
  forall (hashToken : js_string -> js_string) (req : WebhookRequest)
         (now : Date) (w : World),
    (forall c s other,
        x_webhook_token req = Some (c :: s) ->
        post_sms_webhook hashToken req now w
        = post_sms_webhook hashToken
            {| x_webhook_token := Some (c :: s); authorization := other;
               wh_body := wh_body req |} now w)
    /\ (x_webhook_token req = None \/ x_webhook_token req = Some [] ->
        post_sms_webhook hashToken req now w
        = post_sms_webhook hashToken
            {| x_webhook_token := None; authorization := authorization req;
               wh_body := wh_body req |} now w)
    /\ ((x_webhook_token req = None \/ x_webhook_token req = Some []) ->
        (authorization req = None \/ authorization req = Some []) ->
        post_sms_webhook hashToken req now w = (fail 401 "Webhook token required", w))
    /\ (presented_token req <> None -> wh_body req = None ->
        post_sms_webhook hashToken req now w
        = ({| status := 400; body := ValidationError |}, w)).
Proof.
  intros hashToken req now w. unfold post_sms_webhook, try_catch, presented_token.
  split; [|split; [|split]].
  - intros c s other ->. reflexivity.
  - intros [-> | ->]; reflexivity.
  - intros [-> | ->] [-> | ->]; reflexivity.
  - intros Ht ->. destruct (str_or _ _) as [[|c s]|]; try contradiction; reflexivity.
Qed.
